(** * Google Ads keyword dashboard (src/ganapathi.py): cleaning, aggregation, gap analysis

    A shallow embedding of the data pipeline of the dashboard script:
    the file loading loop, the normaliser, [clean_text], the keyword summary
    and the search-gap analysis, followed by the properties of each.

    Conventions of the embedding.
    - A Python [str] is a [string]; the character operations are written on
      its [list ascii].  Case folding and the whitespace class are those of
      Python on code points below 128; characters from 128 on are left alone
      by [py_lower] and are not whitespace.
    - A table cell of a text column is a [value]: a missing value
      ([NaN]/[None], for which [pd.isna] holds), a string, or an integer
      (a column that read as whole numbers).
    - The metric columns are exact rationals: the rounding of binary floating
      point is not part of the model, its special values are ([fnum]).  Where
      sums are compared with one another, the column is taken in the
      arithmetic of its dtype instead: int64 with its wrap-around, float64
      with its rounding ([summary_clicks_total]).
    - Every report has the columns the script reads.
    - The texts of the messages are written without their emoji. *)

From Stdlib Require Import PrimFloat.
From Stdlib Require Import QArith Ascii Sorted.
From stdpp Require Import gmap strings list pretty.

(** ** Python string operations *)

Definition code (c : ascii) : nat := nat_of_ascii c.

(** [str.isspace] on one character below 128: TAB, LF, VT, FF, CR, the four
    separators FS GS RS US, and the space.  [str.strip()] and the regular
    expression class [\s] of a [str] pattern both use this class. *)
Definition is_space (c : ascii) : bool :=
  let n := code c in
  ((9 <=? n) && (n <=? 13)) || ((28 <=? n) && (n <=? 32)).

(** [str.lower] on one character. *)
Definition lower_char (c : ascii) : ascii :=
  let n := code c in
  if (65 <=? n) && (n <=? 90) then ascii_of_nat (n + 32) else c.

(** The character class of the first regular expression: the two square
    brackets and the double quote (code 34). *)
Definition is_bracket (c : ascii) : bool :=
  match c with
  | "["%char | "]"%char | "034"%char => true
  | _ => false
  end.

Definition is_plus (c : ascii) : bool :=
  match c with "+"%char => true | _ => false end.

Definition is_newline (c : ascii) : bool :=
  match c with "010"%char => true | _ => false end.

Definition py_lower (x : list ascii) : list ascii := map lower_char x.

(** Drop the longest prefix, resp. suffix, of characters in the class [p]. *)
Fixpoint lstrip_with (p : ascii -> bool) (x : list ascii) : list ascii :=
  match x with
  | [] => []
  | c :: x' => if p c then lstrip_with p x' else x
  end.

Fixpoint rstrip_with (p : ascii -> bool) (x : list ascii) : list ascii :=
  match x with
  | [] => []
  | c :: x' =>
      match rstrip_with p x' with
      | [] => if p c then [] else [c]
      | r => c :: r
      end
  end.

(** [x.strip()] *)
Definition py_strip (x : list ascii) : list ascii :=
  rstrip_with is_space (lstrip_with is_space x).

Definition starts_with (p : ascii -> bool) (x : list ascii) : bool :=
  match x with
  | [] => false
  | c :: _ => p c
  end.

Fixpoint ends_with (p : ascii -> bool) (x : list ascii) : bool :=
  match x with
  | [] => false
  | [c] => p c
  | _ :: x' => ends_with p x'
  end.

(** The first [re.sub] of [clean_text], with pattern [^B+|B+$] where [B] is the
    class [is_bracket], and the empty replacement.  The first alternative
    matches the run of [B] characters that starts the string.  The second
    matches a run that reaches [$]: the end of the string, or the position
    just before a newline that ends the string. *)
Definition sub_bracket_ends (x : list ascii) : list ascii :=
  let y := lstrip_with is_bracket x in
  if ends_with is_newline y
  then rstrip_with is_bracket (removelast y) ++ ["010"%char]
  else rstrip_with is_bracket y.

(** [x.replace] of the plus sign by the empty string. *)
Definition remove_plus (x : list ascii) : list ascii :=
  List.filter (fun c => negb (is_plus c)) x.

(** The second [re.sub], pattern [\s+]: every maximal run of whitespace
    becomes one space.  A whitespace character followed by another one is dropped, the
    last one of a run is replaced. *)
Fixpoint collapse_spaces (x : list ascii) : list ascii :=
  match x with
  | [] => []
  | c :: x' =>
      if is_space c then
        if starts_with is_space x' then collapse_spaces x'
        else " "%char :: collapse_spaces x'
      else c :: collapse_spaces x'
  end.

(** The body of [clean_text] after [str(x)], on the characters. *)
Definition clean_chars (x : list ascii) : list ascii :=
  let x := py_strip (py_lower x) in
  let x := sub_bracket_ends x in
  let x := py_strip (remove_plus x) in
  collapse_spaces x.

(** ** Cell values *)

Inductive value : Type :=
  | VNull
  | VStr (s : string)
  | VInt (z : Z).

#[global] Instance value_eq_dec : EqDecision value.
Proof. solve_decision. Defined.

(** [pd.isna] on a scalar. *)
Definition isna (v : value) : bool :=
  match v with VNull => true | _ => false end.

(** [str(x)] *)
Definition py_str (v : value) : string :=
  match v with
  | VNull => "nan"
  | VStr s => s
  | VInt z => pretty z
  end.

(** A function on characters, as a function on strings. *)
Definition on_chars (f : list ascii -> list ascii) (s : string) : string :=
  String.string_of_list_ascii (f (String.list_ascii_of_string s)).

Definition clean_str (s : string) : string := on_chars clean_chars s.

Definition clean_text (x : value) : string :=
  if isna x then "" else clean_str (py_str x).

(** *** The same function with the dynamic checks of Python

    [clean_text] is annotated [str -> str] but [Series.apply] hands it
    whatever the cell holds.  A string method looked up on a value that is no
    string raises [AttributeError]; [re.sub] on one raises [TypeError]. *)
Inductive exn : Type :=
  | ValueError (msg : string)
  | AttributeError (msg : string)
  | TypeError (msg : string).

(** The objects [clean_text] can be handed.  A scalar is [None], the float
    NaN, a string, an integer, a boolean, or a float other than NaN; such a
    float is given by the text that [str] returns for it ([2024.0] for the
    float 2024, [1e+16] for ten to the sixteenth), the formatting of floats
    being no part of the model.  A list is given with its first two items:
    shorter lists are not modelled. *)
Inductive scalar : Type :=
  | SNone
  | SNaN
  | SStr (s : string)
  | SInt (z : Z)
  | SBool (b : bool)
  | SFloat (text : string).

Inductive pyobj : Type :=
  | Scalar (v : scalar)
  | PyList (first second : scalar) (rest : list scalar).

(** A cell of the table as an object. *)
Definition scalar_of_value (v : value) : scalar :=
  match v with
  | VNull => SNaN
  | VStr s => SStr s
  | VInt z => SInt z
  end.

(** [pd.isna] on a scalar. *)
Definition scalar_isna (v : scalar) : bool :=
  match v with
  | SNone | SNaN => true
  | _ => false
  end.

(** The builtin [str] on a scalar. *)
Definition scalar_str (v : scalar) : string :=
  match v with
  | SNone => "None"
  | SNaN => "nan"
  | SStr s => s
  | SInt z => pretty z
  | SBool true => "True"
  | SBool false => "False"
  | SFloat text => text
  end.

Definition builtin_str (v : scalar) : scalar := SStr (scalar_str v).

Definition str_method (attr : string) (f : list ascii -> list ascii) (receiver : scalar)
    : exn + scalar :=
  match receiver with
  | SStr s => inr (SStr (on_chars f s))
  | _ => inl (AttributeError ("object has no attribute " +:+ attr))
  end.

Definition re_sub (f : list ascii -> list ascii) (subject : scalar) : exn + scalar :=
  match subject with
  | SStr s => inr (SStr (on_chars f s))
  | _ => inl (TypeError "expected string or bytes-like object")
  end.

Definition bind {A B} (m : exn + A) (k : A -> exn + B) : exn + B :=
  match m with
  | inl e => inl e
  | inr a => k a
  end.

Notation "'let*' x ':=' m 'in' k" := (bind m (fun x => k))
  (at level 10, x name, m at level 100, k at level 200, only parsing).

(** [clean_text] on an object.  On a list [pd.isna] returns an array, and
    [if pd.isna(x)] raises, the truth value of an array of two or more items
    being ambiguous; nothing else of the function is run. *)
Definition clean_text_dyn (x : pyobj) : exn + scalar :=
  match x with
  | PyList _ _ _ =>
      inl (ValueError
             "The truth value of an array with more than one element is ambiguous. Use a.any() or a.all()")
  | Scalar v =>
      if scalar_isna v then inr (SStr "")
      else
        let* x := str_method "lower" py_lower (builtin_str v) in
        let* x := str_method "strip" py_strip x in
        let* x := re_sub sub_bracket_ends x in
        let* x := str_method "replace" remove_plus x in
        let* x := str_method "strip" py_strip x in
        re_sub collapse_spaces x
  end.

(** ** Loader: the file loop and [pd.concat] *)

(** A cell as [pd.read_csv] tokenises it: a piece of text, or a whole number
    when the column read as integers. *)
Inductive token : Type :=
  | TText (s : string)
  | TInt (z : Z).

(** The texts [pd.read_csv] reads as a missing value (its default
    [na_values], with [keep_default_na] and [na_filter] left on). *)
Definition na_values : list string :=
  [ ""; "#N/A"; "#N/A N/A"; "#NA"; "-1.#IND"; "-1.#QNAN"; "-NaN"; "-nan";
    "1.#IND"; "1.#QNAN"; "<NA>"; "N/A"; "NA"; "NULL"; "NaN"; "None"; "n/a";
    "nan"; "null" ].

Definition read_cell (t : token) : value :=
  match t with
  | TText s => if decide (s ∈ na_values) then VNull else VStr s
  | TInt z => VInt z
  end.

(** One data row of a report, under the headers of the export.  A metric cell
    is given by the number [pd.to_numeric(..., errors="coerce")] reads in it:
    [None] when it reads none (the cell becomes NaN). *)
Record csv_record : Type := {
  csv_search_term : token;
  csv_keyword : token;
  csv_campaign : token;
  csv_ad_group : token;
  csv_match_type : token;
  csv_impr : option Q;
  csv_interactions : option Q;
  csv_cost : option Q
}.

(** An uploaded file: its name, and what [pd.read_csv(file, skiprows=2)] does
    with it: raise (with the text of the exception) or return the data rows. *)
Record upload : Type := {
  name : string;
  read_csv : string + list csv_record
}.

(** A row of the merged table: the columns of the report and [account]. *)
Record merged_row : Type := {
  m_search_term : value;
  m_keyword : value;
  m_campaign : value;
  m_ad_group : value;
  m_match_type : value;
  m_impr : option Q;
  m_interactions : option Q;
  m_cost : option Q;
  m_account : string
}.

(** [df = pd.read_csv(...); df["account"] = file.name], on one row. *)
Definition tag_account (file_name : string) (c : csv_record) : merged_row :=
  {| m_search_term := read_cell (csv_search_term c);
     m_keyword := read_cell (csv_keyword c);
     m_campaign := read_cell (csv_campaign c);
     m_ad_group := read_cell (csv_ad_group c);
     m_match_type := read_cell (csv_match_type c);
     m_impr := csv_impr c;
     m_interactions := csv_interactions c;
     m_cost := csv_cost c;
     m_account := file_name |}.

(** The state of the loop: the frames collected in [all_dfs] and the messages
    passed to [st.error], oldest first. *)
Record loader_state : Type := {
  all_dfs : list (list merged_row);
  st_errors : list string
}.

Definition loader_init : loader_state := {| all_dfs := []; st_errors := [] |}.

(** The body of [for file in uploaded_files], with its [try]/[except]. *)
Definition loader_step (st : loader_state) (file : upload) : loader_state :=
  match read_csv file with
  | inr records =>
      {| all_dfs := all_dfs st ++ [map (tag_account (name file)) records];
         st_errors := st_errors st |}
  | inl e =>
      {| all_dfs := all_dfs st;
         st_errors := st_errors st ++ ["Error reading " +:+ name file +:+ ": " +:+ e] |}
  end.

(** [pd.concat(all_dfs, ignore_index=True)]: raises on an empty list. *)
Definition pd_concat (dfs : list (list merged_row)) : exn + list merged_row :=
  match dfs with
  | [] => inl (ValueError "No objects to concatenate")
  | _ => inr (concat dfs)
  end.

(** Lines 40 to 49: the messages shown, and the merged table or the exception
    that ends the run.  (The script stops before these lines, with a warning,
    when nothing is uploaded.) *)
Definition load (uploaded_files : list upload) : list string * (exn + list merged_row) :=
  let st := fold_left loader_step uploaded_files loader_init in
  (st_errors st, pd_concat (all_dfs st)).

(** ** Normaliser *)

(** A row of [df] after the renaming and the numeric clean-up. *)
Record row : Type := {
  search_term : value;
  keyword : value;
  campaign : value;
  ad_group : value;
  match_type : value;
  impressions : Q;
  clicks : Q;
  cost : Q;
  account : string
}.

(** [.fillna(0)] on a metric cell. *)
Definition fillna0 (x : option Q) : Q :=
  match x with Some q => q | None => 0%Q end.

(** [df.rename(columns=...)] followed by
    [df[col] = pd.to_numeric(df[col], errors="coerce").fillna(0)]. *)
Definition rename_and_clean_numbers (m : merged_row) : row :=
  {| search_term := m_search_term m;
     keyword := m_keyword m;
     campaign := m_campaign m;
     ad_group := m_ad_group m;
     match_type := m_match_type m;
     impressions := fillna0 (m_impr m);
     clicks := fillna0 (m_interactions m);
     cost := fillna0 (m_cost m);
     account := m_account m |}.

(** [df.dropna(subset=["search_term"])] *)
Definition dropna_search_term (df : list row) : list row :=
  List.filter (fun r => negb (isna (search_term r))) df.

Definition normalize (merged : list merged_row) : list row :=
  dropna_search_term (map rename_and_clean_numbers merged).

(** ** Sidebar filters *)

(** [Series.unique()]: the values in order of first appearance. *)
Fixpoint unique `{EqDecision A} (l : list A) : list A :=
  match l with
  | [] => []
  | x :: l' => x :: List.filter (fun y => bool_decide (y ≠ x)) (unique l')
  end.

(** [df[df[col] == sel]]: a missing value equals nothing. *)
Definition value_eqb (a b : value) : bool :=
  negb (isna a) && negb (isna b) && bool_decide (a = b).

(** The scope selected in the sidebar; [None] is the entry [All]. *)
Definition apply_filters (account_sel : option string) (campaign_sel : option value)
    (df : list row) : list row :=
  let filtered_df :=
    match account_sel with
    | None => df
    | Some a => List.filter (fun r => bool_decide (account r = a)) df
    end in
  match campaign_sel with
  | None => filtered_df
  | Some c => List.filter (fun r => value_eqb (campaign r) c) filtered_df
  end.

(** ** Sorting *)

(** A stable sort by insertion: [le x y] says that [x] may stand before [y];
    elements that compare equal keep their order. *)
Fixpoint insert_by {A} (le : A -> A -> bool) (x : A) (l : list A) : list A :=
  match l with
  | [] => [x]
  | y :: l' => if le x y then x :: l else y :: insert_by le x l'
  end.

Definition sort_by {A} (le : A -> A -> bool) (l : list A) : list A :=
  foldr (insert_by le) [] l.

(** ** Aggregator: the keyword summary *)

(** The result of a float division in pandas: a finite number or one of the
    special values of IEEE 754. *)
Inductive fnum : Type :=
  | Finite (q : Q)
  | PosInf
  | NegInf
  | NaN.

Definition is_finite (x : fnum) : bool :=
  match x with Finite _ => true | _ => false end.

(** [a / b] on two cells of numeric columns: no exception on a zero divisor,
    the quotient is then infinite, or NaN for [0 / 0]. *)
Definition truediv (a b : Q) : fnum :=
  if Qeq_bool b 0 then
    match (a ?= 0)%Q with
    | Eq => NaN
    | Gt => PosInf
    | Lt => NegInf
    end
  else Finite (a / b).

(** [.fillna(0)] on a cell of a ratio column. *)
Definition ratio_fillna0 (x : fnum) : fnum :=
  match x with NaN => Finite 0 | _ => x end.

(** [.replace([float("inf")], 0)] on a cell of a ratio column. *)
Definition ratio_replace_inf0 (x : fnum) : fnum :=
  match x with PosInf => Finite 0 | _ => x end.

Definition sum_Q (l : list Q) : Q := foldr Qplus 0%Q l.

Definition notna (v : value) : bool := negb (isna v).

(** [nunique]: the number of distinct values, missing ones not counted. *)
Definition nunique (l : list value) : nat :=
  length (unique (List.filter notna l)).

(** The order in which [groupby] lists its keys: numbers first, in increasing
    order, then strings, in increasing order of code points. *)
Definition value_leb (a b : value) : bool :=
  match a, b with
  | VInt x, VInt y => (x <=? y)%Z
  | VInt _, _ => true
  | VStr _, VInt _ => false
  | VStr s, VStr t => String.leb s t
  | VStr _, VNull => true
  | VNull, VNull => true
  | VNull, _ => false
  end.

(** The keys of [df.groupby(col)]: the distinct values of the column, sorted;
    with the default [dropna=True] a missing value is no key. *)
Definition group_keys (col : row -> value) (df : list row) : list value :=
  sort_by value_leb (unique (List.filter notna (map col df))).

Definition group_rows (col : row -> value) (df : list row) (k : value) : list row :=
  List.filter (fun r => bool_decide (col r = k)) df.

Module Agg.
(** A row of the frame [groupby("keyword").agg(...).reset_index()]. *)
Record t : Type := {
  keyword : value;
  total_search_terms : nat;
  total_impressions : Q;
  total_clicks : Q;
  total_cost : Q
}.
End Agg.

Module Summary.
(** A row of [summary] once the columns [CTR] and [CPC] are assigned. *)
Record t : Type := {
  agg : Agg.t;
  CTR : fnum;
  CPC : fnum
}.
End Summary.

Definition agg_keyword (filtered_df : list row) (k : value) : Agg.t :=
  let g := group_rows keyword filtered_df k in
  {| Agg.keyword := k;
     Agg.total_search_terms := nunique (map search_term g);
     Agg.total_impressions := sum_Q (map impressions g);
     Agg.total_clicks := sum_Q (map clicks g);
     Agg.total_cost := sum_Q (map cost g) |}.

Definition groupby_keyword (filtered_df : list row) : list Agg.t :=
  map (agg_keyword filtered_df) (group_keys keyword filtered_df).

(** The comparison of [sort_values("total_search_terms", ascending=False)].
    Rows with equal counts are kept in group order here; the default sorting
    routine of pandas does not promise it, and nothing below depends on it. *)
Definition more_terms (a b : Agg.t) : bool :=
  Nat.leb (Agg.total_search_terms b) (Agg.total_search_terms a).

Definition with_ratios (a : Agg.t) : Summary.t :=
  {| Summary.agg := a;
     Summary.CTR := ratio_fillna0 (truediv (Agg.total_clicks a) (Agg.total_impressions a));
     Summary.CPC := ratio_replace_inf0 (truediv (Agg.total_cost a) (Agg.total_clicks a)) |}.

Definition summary (filtered_df : list row) : list Summary.t :=
  map with_ratios (sort_by more_terms (groupby_keyword filtered_df)).

(** ** Gap detector *)

Definition search_term_clean (r : row) : string := clean_text (search_term r).
Definition keyword_clean (r : row) : string := clean_text (keyword r).

Definition all_keywords (filtered_df : list row) : gset string :=
  list_to_set (unique (map keyword_clean filtered_df)) ∖ {[ "" ]}.

Definition all_search_terms (filtered_df : list row) : gset string :=
  list_to_set (unique (map search_term_clean filtered_df)).

Definition uncovered_terms (filtered_df : list row) : gset string :=
  all_search_terms filtered_df ∖ all_keywords filtered_df.

(** [filtered_df[filtered_df["search_term_clean"].isin(uncovered_terms)]] *)
Definition uncovered_df (filtered_df : list row) : list row :=
  List.filter (fun r => bool_decide (search_term_clean r ∈ uncovered_terms filtered_df))
    filtered_df.

Module TermAgg.
(** A row of [uncovered_summary]. *)
Record t : Type := {
  search_term : value;
  total_impressions : Q;
  total_clicks : Q;
  total_cost : Q
}.
End TermAgg.

Module Detail.
(** A row of the full detailed list, in the order of its columns. *)
Record t : Type := {
  search_term : value;
  match_type : value;
  campaign : value;
  ad_group : value;
  impressions : Q;
  clicks : Q;
  cost : Q;
  keyword : value
}.
End Detail.

Definition agg_search_term (df : list row) (k : value) : TermAgg.t :=
  let g := group_rows search_term df k in
  {| TermAgg.search_term := k;
     TermAgg.total_impressions := sum_Q (map impressions g);
     TermAgg.total_clicks := sum_Q (map clicks g);
     TermAgg.total_cost := sum_Q (map cost g) |}.

(** [sort_values(by=["total_clicks", "total_impressions"],
    ascending=[False, False])] *)
Definition more_traffic (a b : TermAgg.t) : bool :=
  match (TermAgg.total_clicks a ?= TermAgg.total_clicks b)%Q with
  | Gt => true
  | Lt => false
  | Eq => Qle_bool (TermAgg.total_impressions b) (TermAgg.total_impressions a)
  end.

Definition uncovered_summary (unc : list row) : list TermAgg.t :=
  sort_by more_traffic (map (agg_search_term unc) (group_keys search_term unc)).

(** The column selection of the detailed list. *)
Definition detail_columns (r : row) : Detail.t :=
  {| Detail.search_term := search_term r;
     Detail.match_type := match_type r;
     Detail.campaign := campaign r;
     Detail.ad_group := ad_group r;
     Detail.impressions := impressions r;
     Detail.clicks := clicks r;
     Detail.cost := cost r;
     Detail.keyword := keyword r |}.

(** [sort_values(by="clicks", ascending=False)] *)
Definition more_clicks (a b : Detail.t) : bool :=
  Qle_bool (Detail.clicks b) (Detail.clicks a).

Definition full_detailed_list (unc : list row) : list Detail.t :=
  sort_by more_clicks (map detail_columns unc).

(** What the section shows: the [st.info] message, or the two tables. *)
Inductive gap_view : Type :=
  | Info (msg : string)
  | Tables (aggregated : list TermAgg.t) (detailed : list Detail.t).

Definition fully_covered : gap_view :=
  Info "All search terms are already covered by your paid keywords!".

(** [uncovered_df.empty] *)
Definition empty {A} (df : list A) : bool :=
  match df with [] => true | _ => false end.

Definition gap_analysis (filtered_df : list row) : gap_view :=
  let unc := uncovered_df filtered_df in
  if empty unc then fully_covered
  else Tables (uncovered_summary unc) (full_detailed_list unc).

(** ** The upload guard *)

(** How the page starts: [st.stop()] after the warning, or the loader. *)
Inductive page : Type :=
  | Stopped (warning : string)
  | Loaded (messages : list string) (merged : exn + list merged_row).

(** Lines 33 to 49: [if not uploaded_files] and then the loader. *)
Definition start (uploaded_files : list upload) : page :=
  match uploaded_files with
  | [] => Stopped "Please upload your CSV reports."
  | _ => Loaded (fst (load uploaded_files)) (snd (load uploaded_files))
  end.

(** ** The sidebar, with its entry [All] as the script writes it *)

(** The entries of the two select boxes. *)
Definition account_options (df : list row) : list string :=
  "All" :: unique (map account df).

Definition campaign_options (filtered_df : list row) : list value :=
  VStr "All" :: unique (map campaign filtered_df).

(** [df if account_sel == "All" else df[df["account"] == account_sel]] *)
Definition select_account (account_sel : string) (df : list row) : list row :=
  if bool_decide (account_sel = "All") then df
  else List.filter (fun r => bool_decide (account r = account_sel)) df.

(** [if campaign_sel != "All": filtered_df = filtered_df[... == campaign_sel]] *)
Definition select_campaign (campaign_sel : value) (filtered_df : list row) : list row :=
  if bool_decide (campaign_sel = VStr "All") then filtered_df
  else List.filter (fun r => value_eqb (campaign r) campaign_sel) filtered_df.

Definition sidebar (account_sel : string) (campaign_sel : value) (df : list row) : list row :=
  select_campaign campaign_sel (select_account account_sel df).

(** ** Exact search terms of one keyword *)

Module TermDetail.
(** A row of [term_details]. *)
Record t : Type := {
  search_term : value;
  impressions : Q;
  clicks : Q;
  cost : Q
}.
End TermDetail.

(** The entries of the keyword select box: [summary["keyword"].dropna().tolist()]. *)
Definition keyword_options (summary_rows : list Summary.t) : list value :=
  List.filter notna (map (fun s => Agg.keyword (Summary.agg s)) summary_rows).

(** [if chosen_kw:] on an entry: the empty string and the number 0 are false
    (NaN, which is no entry, is true). *)
Definition truthy (v : value) : bool :=
  match v with
  | VNull => true
  | VStr s => negb (bool_decide (s = ""))
  | VInt z => negb (z =? 0)%Z
  end.

Definition agg_term_detail (sub : list row) (k : value) : TermDetail.t :=
  let g := group_rows search_term sub k in
  {| TermDetail.search_term := k;
     TermDetail.impressions := sum_Q (map impressions g);
     TermDetail.clicks := sum_Q (map clicks g);
     TermDetail.cost := sum_Q (map cost g) |}.

Definition more_detail_clicks (a b : TermDetail.t) : bool :=
  Qle_bool (TermDetail.clicks b) (TermDetail.clicks a).

(** [sub] and [term_details] for the chosen keyword. *)
Definition keyword_rows (filtered_df : list row) (chosen_kw : value) : list row :=
  List.filter (fun r => value_eqb (keyword r) chosen_kw) filtered_df.

Definition term_details (filtered_df : list row) (chosen_kw : value) : list TermDetail.t :=
  let sub := keyword_rows filtered_df chosen_kw in
  sort_by more_detail_clicks (map (agg_term_detail sub) (group_keys search_term sub)).

(** What the section shows under the select box: nothing, or the keyword, the
    number of its search terms and the table.  [None] is the value of a select
    box without entries. *)
Definition keyword_detail (filtered_df : list row) (chosen_kw : option value)
    : option (value * nat * list TermDetail.t) :=
  match chosen_kw with
  | None => None
  | Some k =>
      if truthy k
      then Some (k, length (term_details filtered_df k), term_details filtered_df k)
      else None
  end.

(** ** Search term to keyword mapping *)

Module Mapping.
(** A row of [mapping], in the order of its columns. *)
Record t : Type := {
  search_term : value;
  keyword : value;
  impressions : Q;
  clicks : Q;
  cost : Q
}.
End Mapping.

Definition mapping_columns (r : row) : Mapping.t :=
  {| Mapping.search_term := search_term r;
     Mapping.keyword := keyword r;
     Mapping.impressions := impressions r;
     Mapping.clicks := clicks r;
     Mapping.cost := cost r |}.

Definition more_mapping_clicks (a b : Mapping.t) : bool :=
  Qle_bool (Mapping.clicks b) (Mapping.clicks a).

Definition mapping (filtered_df : list row) : list Mapping.t :=
  sort_by more_mapping_clicks (map mapping_columns filtered_df).

(** ** The search terms handed to the suggestion service *)

Module TopTerm.
(** A row of [top_context]. *)
Record t : Type := {
  search_term : value;
  clicks : Q;
  impressions : Q
}.
End TopTerm.

Definition agg_top_term (df : list row) (k : value) : TopTerm.t :=
  let g := group_rows search_term df k in
  {| TopTerm.search_term := k;
     TopTerm.clicks := sum_Q (map clicks g);
     TopTerm.impressions := sum_Q (map impressions g) |}.

Definition more_top_clicks (a b : TopTerm.t) : bool :=
  Qle_bool (TopTerm.clicks b) (TopTerm.clicks a).

(** [groupby("search_term").agg(...)] and [sort_values(by="clicks",
    ascending=False)], before [head]. *)
Definition terms_by_clicks (filtered_df : list row) : list TopTerm.t :=
  sort_by more_top_clicks (map (agg_top_term filtered_df) (group_keys search_term filtered_df)).

(** [.head(30).reset_index()] *)
Definition top_context (filtered_df : list row) : list TopTerm.t :=
  firstn 30 (terms_by_clicks filtered_df).

(** ** The clicks of the keyword summary in the arithmetic of the column

    [pd.to_numeric] gives the column the dtype int64 when every cell reads as
    a whole number, and float64 otherwise.  The sums of an int64 column wrap
    around; those of a float64 column are rounded at every addition.  The
    keyword summary is written out once more for the columns that its
    [total_clicks] depend on, over the type [num] of the numbers and their
    addition. *)

(** A 64-bit signed integer after an overflow. *)
Definition wrap64 (z : Z) : Z := (z + 2 ^ 63) mod 2 ^ 64 - 2 ^ 63.

Definition add64 (a b : Z) : Z := wrap64 (a + b).

Module Typed.
(** The columns [search_term], [keyword] and [clicks] of a row of
    [filtered_df], and [keyword], [total_search_terms] and [total_clicks] of
    a row of [summary]. *)
Record row (num : Type) : Type := {
  search_term : value;
  keyword : value;
  clicks : num
}.
Record agg (num : Type) : Type := {
  agg_keyword : value;
  total_search_terms : nat;
  total_clicks : num
}.
Arguments search_term {num} _.
Arguments keyword {num} _.
Arguments clicks {num} _.
Arguments agg_keyword {num} _.
Arguments total_search_terms {num} _.
Arguments total_clicks {num} _.
End Typed.

Section ClicksColumn.
Context {num : Type} (zero : num) (add : num -> num -> num).

(** The sum of a column, from the first row to the last.  (For a float64
    column the sum of a group is compensated in pandas; on a group of one or
    two rows that is this sum.) *)
Definition column_sum (l : list num) : num := fold_left add l zero.

Definition typed_group (df : list (Typed.row num)) (k : value) : list (Typed.row num) :=
  List.filter (fun r => bool_decide (Typed.keyword r = k)) df.

Definition typed_keys (df : list (Typed.row num)) : list value :=
  sort_by value_leb (unique (List.filter notna (map Typed.keyword df))).

Definition typed_agg_keyword (df : list (Typed.row num)) (k : value) : Typed.agg num :=
  let g := typed_group df k in
  {| Typed.agg_keyword := k;
     Typed.total_search_terms := nunique (map Typed.search_term g);
     Typed.total_clicks := column_sum (map Typed.clicks g) |}.

Definition typed_more_terms (a b : Typed.agg num) : bool :=
  Nat.leb (Typed.total_search_terms b) (Typed.total_search_terms a).

(** [summary], lines 100 to 110. *)
Definition typed_summary (df : list (Typed.row num)) : list (Typed.agg num) :=
  sort_by typed_more_terms (map (typed_agg_keyword df) (typed_keys df)).

(** The two sides of the totals invariant: the sum of [total_clicks] over the
    summary, and the sum of [clicks] over the rows with a keyword. *)
Definition summary_clicks_total (df : list (Typed.row num)) : num :=
  column_sum (map Typed.total_clicks (typed_summary df)).

Definition rows_clicks_total (df : list (Typed.row num)) : num :=
  column_sum (map Typed.clicks (List.filter (fun r => notna (Typed.keyword r)) df)).
End ClicksColumn.

(** The exact sum of a list of integers. *)
Definition Zsum (l : list Z) : Z := fold_right Z.add 0%Z l.

(** Whether every character of a string is an ASCII character. *)
Definition is_ascii (s : string) : bool :=
  forallb (fun c => code c <? 128) (String.list_ascii_of_string s).

(** ** Notions used in the statements *)

(** The normal form [clean_chars] produces, brackets at the two ends apart:
    lower case, no plus sign, no whitespace at the ends, and whitespace only
    as single spaces. *)
Record cleaned (x : list ascii) : Prop := {
  cleaned_lower : forall c, In c x -> lower_char c = c;
  cleaned_plus : forall c, In c x -> is_plus c = false;
  cleaned_start : starts_with is_space x = false;
  cleaned_end : ends_with is_space x = false;
  cleaned_collapsed : collapse_spaces x = x
}.

(** The string starts or ends with a bracket or a double quote. *)
Definition bracket_at_end (s : string) : bool :=
  let x := String.list_ascii_of_string s in
  starts_with is_bracket x || ends_with is_bracket x.

(** What one uploaded file contributes: whether it parses, its rows in the
    merged table, and its message. *)
Definition parsed (f : upload) : bool :=
  match read_csv f with inr _ => true | inl _ => false end.

Definition file_rows (f : upload) : list merged_row :=
  match read_csv f with
  | inr records => map (tag_account (name f)) records
  | inl _ => []
  end.

Definition file_errors (f : upload) : list string :=
  match read_csv f with
  | inr _ => []
  | inl e => ["Error reading " +:+ name f +:+ ": " +:+ e]
  end.

(** The search term of a merged row is neither missing nor the empty string. *)
Definition has_search_term (m : merged_row) : bool :=
  match m_search_term m with
  | VNull => false
  | VStr EmptyString => false
  | _ => true
  end.

(** A character that no step of [clean_chars] touches. *)
Definition plain (c : ascii) : bool :=
  negb (is_space c) && negb (is_plus c) && negb (is_bracket c)
  && bool_decide (lower_char c = c).

(** * Properties *)

(** ** Characters *)

Ltac by_cases_on_char c :=
  destruct c as [[] [] [] [] [] [] [] []]; vm_compute; try reflexivity; try discriminate; auto.

Lemma lower_char_idem c : lower_char (lower_char c) = lower_char c.
Proof. by_cases_on_char c. Qed.

Lemma space_not_bracket c : is_space c = true -> is_bracket c = false.
Proof. by_cases_on_char c. Qed.

Lemma newline_is_space c : is_newline c = true -> is_space c = true.
Proof. by_cases_on_char c. Qed.

(** ** Stripping *)

Section Strip.
Variable p : ascii -> bool.

Lemma lstrip_with_id x : starts_with p x = false -> lstrip_with p x = x.
Proof. destruct x as [|c x]; simpl; [done|]. by intros ->. Qed.

Lemma lstrip_with_starts x : starts_with p (lstrip_with p x) = false.
Proof.
  induction x as [|c x IH]; simpl; [done|].
  destruct (p c) eqn:E; [done|]. simpl. done.
Qed.

Lemma rstrip_with_nil x : rstrip_with p x = [] -> forallb p x = true.
Proof.
  induction x as [|c x IH]; simpl; [done|].
  destruct (rstrip_with p x) eqn:E; [|done].
  destruct (p c); [|done]. intros _. by apply IH.
Qed.

Lemma rstrip_with_id x : ends_with p x = false -> rstrip_with p x = x.
Proof.
  induction x as [|c x IH]; simpl; [done|].
  destruct x as [|c' x'].
  - simpl. by intros ->.
  - intros H. rewrite (IH H). done.
Qed.

Lemma rstrip_with_ends x : ends_with p (rstrip_with p x) = false.
Proof.
  induction x as [|c x IH]; simpl; [done|].
  destruct (rstrip_with p x) as [|c' r] eqn:E.
  - destruct (p c) eqn:Ec; simpl; done.
  - exact IH.
Qed.

Lemma rstrip_with_starts (q : ascii -> bool) x :
  starts_with q x = false -> starts_with q (rstrip_with p x) = false.
Proof.
  destruct x as [|c x]; simpl; [done|]. intros H.
  destruct (rstrip_with p x); [destruct (p c)|]; simpl; done.
Qed.

Lemma lstrip_with_length x : length (lstrip_with p x) <= length x.
Proof. induction x as [|c x IH]; simpl; [lia|]. destruct (p c); simpl; lia. Qed.

Lemma lstrip_with_shorter x :
  starts_with p x = true -> length (lstrip_with p x) < length x.
Proof.
  destruct x as [|c x]; simpl; [done|]. intros ->.
  pose proof (lstrip_with_length x). lia.
Qed.

Lemma rstrip_with_length x : length (rstrip_with p x) <= length x.
Proof.
  induction x as [|c x IH]; simpl; [lia|].
  destruct (rstrip_with p x); [destruct (p c)|]; simpl in *; lia.
Qed.

Lemma rstrip_with_shorter x :
  ends_with p x = true -> length (rstrip_with p x) < length x.
Proof.
  induction x as [|c x IH]; simpl; [done|].
  destruct x as [|c' x'].
  - simpl. intros ->. simpl. lia.
  - intros H. specialize (IH H).
    destruct (rstrip_with p (c' :: x')); [destruct (p c)|]; simpl in *; lia.
Qed.

Lemma lstrip_with_In c x : In c (lstrip_with p x) -> In c x.
Proof.
  induction x as [|d x IH]; simpl; [done|].
  destruct (p d); simpl; tauto.
Qed.

Lemma rstrip_with_In c x : In c (rstrip_with p x) -> In c x.
Proof.
  revert c. induction x as [|d x IH]; simpl; [done|]. intros c.
  destruct (rstrip_with p x) as [|e r].
  - destruct (p d); simpl; tauto.
  - intros [->|H]; [by left|]. right. by apply IH.
Qed.
End Strip.

Lemma ends_with_weaken (p q : ascii -> bool) x :
  (forall c, p c = true -> q c = true) -> ends_with q x = false -> ends_with p x = false.
Proof.
  intros Hpq. induction x as [|c x IH]; simpl; [done|].
  destruct x as [|c' x']; [|exact IH].
  intros Hq. destruct (p c) eqn:E; [|done]. apply Hpq in E. congruence.
Qed.

Lemma starts_with_weaken (p q : ascii -> bool) x :
  (forall c, p c = true -> q c = true) -> starts_with q x = false -> starts_with p x = false.
Proof.
  intros Hpq. destruct x as [|c x]; simpl; [done|].
  intros Hq. destruct (p c) eqn:E; [|done]. apply Hpq in E. congruence.
Qed.

Lemma py_strip_id x :
  starts_with is_space x = false -> ends_with is_space x = false -> py_strip x = x.
Proof.
  intros H1 H2. unfold py_strip. rewrite lstrip_with_id by done.
  by apply rstrip_with_id.
Qed.

Lemma py_strip_starts x : starts_with is_space (py_strip x) = false.
Proof. unfold py_strip. apply rstrip_with_starts, lstrip_with_starts. Qed.

Lemma py_strip_ends x : ends_with is_space (py_strip x) = false.
Proof. unfold py_strip. apply rstrip_with_ends. Qed.

Lemma py_strip_length x : length (py_strip x) <= length x.
Proof.
  unfold py_strip. pose proof (rstrip_with_length is_space (lstrip_with is_space x)).
  pose proof (lstrip_with_length is_space x). lia.
Qed.

Lemma py_strip_In c x : In c (py_strip x) -> In c x.
Proof. unfold py_strip. intros H. by apply rstrip_with_In, lstrip_with_In in H. Qed.

(** ** The two substitutions *)

Lemma collapse_spaces_starts x :
  starts_with is_space (collapse_spaces x) = starts_with is_space x.
Proof.
  induction x as [|c x IH]; simpl; [done|].
  destruct (is_space c) eqn:Ec; simpl; [|done].
  destruct (starts_with is_space x) eqn:Ex; simpl; [|done].
  by rewrite IH.
Qed.

Lemma collapse_spaces_nil x : collapse_spaces x = [] -> x = [].
Proof.
  induction x as [|c x IH]; simpl; [done|].
  destruct (is_space c); [|done].
  destruct (starts_with is_space x) eqn:Ex; [|done].
  intros H. apply IH in H. subst x. done.
Qed.

Lemma ends_with_cons p c x : x <> [] -> ends_with p (c :: x) = ends_with p x.
Proof. destruct x; simpl; done. Qed.

Lemma collapse_spaces_ends x :
  ends_with is_space (collapse_spaces x) = ends_with is_space x.
Proof.
  induction x as [|c x IH]; [done|].
  destruct x as [|c' x'].
  - simpl. destruct (is_space c) eqn:Ec; simpl; done.
  - rewrite (ends_with_cons _ c) by done.
    assert (Hne : collapse_spaces (c' :: x') <> []).
    { intros H. by apply collapse_spaces_nil in H. }
    change (collapse_spaces (c :: c' :: x')) with
      (if is_space c then
         if starts_with is_space (c' :: x') then collapse_spaces (c' :: x')
         else " "%char :: collapse_spaces (c' :: x')
       else c :: collapse_spaces (c' :: x')).
    destruct (is_space c); [destruct (starts_with is_space (c' :: x'))|];
      rewrite ?ends_with_cons by done; exact IH.
Qed.

Lemma collapse_spaces_idem x :
  collapse_spaces (collapse_spaces x) = collapse_spaces x.
Proof.
  induction x as [|c x IH]; simpl; [done|].
  destruct (is_space c) eqn:Ec.
  - destruct (starts_with is_space x) eqn:Ex; [done|].
    simpl. rewrite collapse_spaces_starts, Ex. by rewrite IH.
  - simpl. rewrite Ec. by rewrite IH.
Qed.

Lemma collapse_spaces_length x : length (collapse_spaces x) <= length x.
Proof.
  induction x as [|c x IH]; simpl; [lia|].
  destruct (is_space c); [destruct (starts_with is_space x)|]; simpl; lia.
Qed.

Lemma collapse_spaces_In c x :
  In c (collapse_spaces x) -> c = " "%char \/ In c x.
Proof.
  induction x as [|d x IH]; simpl; [tauto|].
  destruct (is_space d); [destruct (starts_with is_space x)|]; simpl.
  - tauto.
  - intros [<-|H]; tauto.
  - tauto.
Qed.

Lemma remove_plus_length x : length (remove_plus x) <= length x.
Proof. apply List.filter_length_le. Qed.

Lemma remove_plus_id x :
  (forall c, In c x -> is_plus c = false) -> remove_plus x = x.
Proof.
  induction x as [|c x IH]; simpl; [done|]. intros H.
  rewrite (H c) by (by left). simpl. f_equal. apply IH. intros d Hd. apply H. by right.
Qed.

(** On a string that ends in no whitespace, [$] is the end of the string. *)
Lemma sub_bracket_ends_stripped x :
  ends_with is_space x = false ->
  sub_bracket_ends x = rstrip_with is_bracket (lstrip_with is_bracket x).
Proof.
  intros H. unfold sub_bracket_ends.
  assert (Hy : ends_with is_newline (lstrip_with is_bracket x) = false); [|by rewrite Hy].
  apply (ends_with_weaken _ is_space); [apply newline_is_space|].
  clear -H. induction x as [|c x IH]; [done|].
  simpl lstrip_with. destruct (is_bracket c); [|done].
  destruct x as [|c' x']; [done|]. apply IH. exact H.
Qed.

Lemma sub_bracket_ends_In c x :
  In c (sub_bracket_ends x) -> In c x.
Proof.
  unfold sub_bracket_ends.
  set (y := lstrip_with is_bracket x).
  assert (Hy : forall d, In d y -> In d x) by (intros d; apply lstrip_with_In).
  destruct (ends_with is_newline y) eqn:E.
  - rewrite in_app_iff. intros [H|[<-|[]]].
    + apply Hy. apply rstrip_with_In in H.
      clear -H. induction y as [|d y IH]; [done|].
      destruct y; [done|]. simpl in H. destruct H as [->|H]; [by left|right; by apply IH].
    + apply Hy. clear -E. induction y as [|d y IH]; [done|].
      destruct y as [|d' y'].
      * simpl in E. left. revert E. by_cases_on_char d.
      * right. by apply IH.
  - intros H. apply Hy. by apply rstrip_with_In in H.
Qed.

(** ** [clean_text] *)

(** The example of the specification: case, quotes, plus sign and spacing do
    not matter. *)
Lemma clean_text_example :
  clean_text (VStr (String " " (String "034" ("Roof+ Repair" +:+ String "034" " "))))
  = clean_text (VStr "roof repair").
Proof. vm_compute. reflexivity. Qed.

Lemma clean_chars_cleaned x : cleaned (clean_chars x).
Proof.
  unfold clean_chars. split.
  - intros c Hc. apply collapse_spaces_In in Hc as [->|Hc]; [done|].
    apply py_strip_In in Hc. apply List.filter_In in Hc as [Hc _].
    apply sub_bracket_ends_In, py_strip_In in Hc.
    apply in_map_iff in Hc as (d & <- & _). apply lower_char_idem.
  - intros c Hc. apply collapse_spaces_In in Hc as [->|Hc]; [done|].
    apply py_strip_In in Hc. apply List.filter_In in Hc as [_ Hc].
    by apply negb_true_iff in Hc.
  - rewrite collapse_spaces_starts. apply py_strip_starts.
  - rewrite collapse_spaces_ends. apply py_strip_ends.
  - apply collapse_spaces_idem.
Qed.

Lemma cleaned_py_lower x : cleaned x -> py_lower x = x.
Proof.
  intros [Hl _ _ _ _]. unfold py_lower.
  rewrite <- (map_id x) at 2. by apply map_ext_in.
Qed.

Lemma cleaned_fix x :
  cleaned x -> starts_with is_bracket x = false -> ends_with is_bracket x = false ->
  clean_chars x = x.
Proof.
  intros Hx Hs He. unfold clean_chars.
  rewrite (cleaned_py_lower x Hx).
  destruct Hx as [_ Hp Hss Hse Hc].
  rewrite (py_strip_id x Hss Hse).
  rewrite (sub_bracket_ends_stripped x Hse).
  rewrite (lstrip_with_id _ x Hs), (rstrip_with_id _ x He).
  rewrite (remove_plus_id x Hp), (py_strip_id x Hss Hse). exact Hc.
Qed.

Lemma cleaned_shrinks x :
  cleaned x -> (starts_with is_bracket x || ends_with is_bracket x) = true ->
  length (clean_chars x) < length x.
Proof.
  intros Hx Hb. unfold clean_chars.
  rewrite (cleaned_py_lower x Hx).
  destruct Hx as [_ Hp Hss Hse Hc].
  rewrite (py_strip_id x Hss Hse).
  rewrite (sub_bracket_ends_stripped x Hse).
  set (y := rstrip_with is_bracket (lstrip_with is_bracket x)).
  assert (Hy : length y < length x).
  { unfold y. destruct (starts_with is_bracket x) eqn:Es.
    - pose proof (lstrip_with_shorter _ x Es).
      pose proof (rstrip_with_length is_bracket (lstrip_with is_bracket x)). lia.
    - simpl in Hb. rewrite (lstrip_with_id _ x Es).
      by apply rstrip_with_shorter. }
  pose proof (collapse_spaces_length (py_strip (remove_plus y))).
  pose proof (py_strip_length (remove_plus y)).
  pose proof (remove_plus_length y). lia.
Qed.

Lemma clean_chars_twice x :
  clean_chars (clean_chars x) = clean_chars x <->
  (starts_with is_bracket (clean_chars x) || ends_with is_bracket (clean_chars x)) = false.
Proof.
  pose proof (clean_chars_cleaned x) as Hc. split.
  - intros Heq.
    destruct (starts_with is_bracket (clean_chars x) || ends_with is_bracket (clean_chars x))
      eqn:E; [|done].
    pose proof (cleaned_shrinks _ Hc E) as Hlt. rewrite Heq in Hlt. lia.
  - intros E. apply orb_false_iff in E as [Es Ee]. by apply cleaned_fix.
Qed.

Lemma on_chars_inj f g s t :
  on_chars f s = on_chars g t ->
  f (String.list_ascii_of_string s) = g (String.list_ascii_of_string t).
Proof.
  unfold on_chars. intros H.
  apply (f_equal String.list_ascii_of_string) in H.
  by rewrite !String.list_ascii_of_string_of_list_ascii in H.
Qed.

Lemma chars_of_on_chars f s :
  String.list_ascii_of_string (on_chars f s) = f (String.list_ascii_of_string s).
Proof. unfold on_chars. apply String.list_ascii_of_string_of_list_ascii. Qed.

Lemma on_chars_compose f g s : on_chars f (on_chars g s) = on_chars (fun x => f (g x)) s.
Proof. unfold on_chars. by rewrite String.list_ascii_of_string_of_list_ascii. Qed.

(** C3, as the code has it: cleaning a cleaned string changes nothing exactly
    when the cleaned string does not start or end with a square bracket or a
    double quote.  (Such a character is left at an end when a plus sign or
    whitespace stood between it and the end, as in [+[roof]] or in a quote
    followed by a space and a bracket.)  The empty string and every string
    that is its own cleaned form are instances. *)
Theorem clean_text_idempotent_iff (s : string) :
  clean_text (VStr (clean_text (VStr s))) = clean_text (VStr s) <->
  bracket_at_end (clean_text (VStr s)) = false.
Proof.
  unfold clean_text, bracket_at_end. simpl. unfold clean_str.
  rewrite on_chars_compose, chars_of_on_chars.
  rewrite <- clean_chars_twice. split.
  - intros H. by apply on_chars_inj in H.
  - intros H. unfold on_chars. by rewrite H.
Qed.

(** C3, counterexample: the keyword [+[roof]] cleans to [[roof], which cleans
    to [roof]. *)
Lemma clean_text_not_idempotent :
  clean_text (VStr "+[roof]") = "[roof" /\
  clean_text (VStr (clean_text (VStr "+[roof]"))) = "roof" /\
  clean_text (VStr (clean_text (VStr "+[roof]"))) <> clean_text (VStr "+[roof]").
Proof. vm_compute. repeat split; congruence. Qed.

(** ** Sorting and distinct values *)

Lemma insert_by_Permutation {A} (le : A -> A -> bool) x l :
  Permutation (insert_by le x l) (x :: l).
Proof.
  induction l as [|y l IH]; simpl; [done|].
  destruct (le x y); [done|].
  rewrite IH. apply perm_swap.
Qed.

Lemma sort_by_Permutation {A} (le : A -> A -> bool) l :
  Permutation (sort_by le l) l.
Proof.
  induction l as [|x l IH]; simpl; [done|].
  rewrite insert_by_Permutation. by constructor.
Qed.

Lemma unique_In `{EqDecision A} (l : list A) x : In x (unique l) <-> In x l.
Proof.
  induction l as [|y l IH]; simpl; [done|].
  rewrite List.filter_In, IH, bool_decide_eq_true.
  destruct (decide (y = x)) as [->|Hne]; [tauto|].
  split; [tauto|]. intros [?|?]; [tauto|]. right. split; [done|congruence].
Qed.

Lemma unique_NoDup `{EqDecision A} (l : list A) : List.NoDup (unique l).
Proof.
  induction l as [|y l IH]; simpl; constructor.
  - rewrite List.filter_In, bool_decide_eq_true. tauto.
  - by apply List.NoDup_filter.
Qed.

(** ** The keyword summary *)

Lemma group_keys_Permutation col df :
  Permutation (group_keys col df) (unique (List.filter notna (map col df))).
Proof. apply sort_by_Permutation. Qed.

Lemma group_keys_In col df k :
  In k (group_keys col df) <-> k <> VNull /\ exists r, In r df /\ col r = k.
Proof.
  rewrite (Permutation_in' (eq_refl k) (group_keys_Permutation col df)) by done.
  rewrite unique_In, List.filter_In, in_map_iff.
  split.
  - intros [(r & <- & Hr) Hn]. split; [|by exists r].
    intros E. by rewrite E in Hn.
  - intros [Hn (r & Hr & <-)]. split; [by exists r|].
    by destruct (col r).
Qed.

Lemma group_keys_NoDup col df : List.NoDup (group_keys col df).
Proof.
  eapply Permutation_NoDup; [symmetry; apply group_keys_Permutation|].
  apply unique_NoDup.
Qed.

Lemma summary_Permutation df :
  Permutation (summary df) (map (fun k => with_ratios (agg_keyword df k)) (group_keys keyword df)).
Proof.
  unfold summary, groupby_keyword. rewrite sort_by_Permutation.
  by rewrite map_map.
Qed.

Lemma summary_keywords df :
  Permutation (map (fun s => Agg.keyword (Summary.agg s)) (summary df))
              (group_keys keyword df).
Proof.
  rewrite (Permutation_map _ (summary_Permutation df)), map_map. simpl.
  by rewrite map_id.
Qed.

(** *** The totals in the arithmetic of the column *)

Lemma wrap64_add_l (a x : Z) : wrap64 (wrap64 a + x) = wrap64 (a + x).
Proof.
  unfold wrap64. f_equal.
  replace ((a + 2 ^ 63) mod 2 ^ 64 - 2 ^ 63 + x + 2 ^ 63)%Z
    with ((a + 2 ^ 63) mod 2 ^ 64 + x)%Z by lia.
  rewrite Zplus_mod_idemp_l. f_equal. lia.
Qed.

Lemma wrap64_add_r (a x : Z) : wrap64 (x + wrap64 a) = wrap64 (x + a).
Proof. rewrite (Z.add_comm x), wrap64_add_l. f_equal. lia. Qed.

Lemma fold_add64 (l : list Z) (a : Z) :
  fold_left add64 l (wrap64 a) = wrap64 (a + Zsum l).
Proof.
  revert a. induction l as [|x l IH]; intros a; simpl.
  - f_equal. lia.
  - unfold add64 at 2. rewrite wrap64_add_l, IH. f_equal. lia.
Qed.

Lemma column_sum_int64 (l : list Z) : column_sum 0%Z add64 l = wrap64 (Zsum l).
Proof. unfold column_sum. change 0%Z with (wrap64 0) at 1. apply fold_add64. Qed.

Lemma Zsum_wrap64 (l : list Z) : wrap64 (Zsum (map wrap64 l)) = wrap64 (Zsum l).
Proof.
  induction l as [|x l IH]; simpl; [done|].
  rewrite wrap64_add_l. rewrite <- (wrap64_add_r (Zsum l)), <- IH, wrap64_add_r. done.
Qed.

Lemma Zsum_Permutation (l l' : list Z) : Permutation l l' -> Zsum l = Zsum l'.
Proof. induction 1; simpl; lia. Qed.

Lemma Zsum_groups {A} (key : A -> value) (f : A -> Z) (ks : list value) (df : list A) :
  List.NoDup ks ->
  Zsum (map (fun k => Zsum (map f (List.filter (fun r => bool_decide (key r = k)) df))) ks)
  = Zsum (map f (List.filter (fun r => bool_decide (key r ∈ ks)) df)).
Proof.
  intros Hks. induction df as [|r df IH]; simpl.
  - induction ks as [|k ks IHk]; simpl; [done|].
    apply NoDup_cons_iff in Hks as [_ Hks]. by rewrite IHk.
  - assert (Hstep :
      Zsum (map (fun k => Zsum (map f (if bool_decide (key r = k)
              then r :: List.filter (fun r0 => bool_decide (key r0 = k)) df
              else List.filter (fun r0 => bool_decide (key r0 = k)) df))) ks)
      = ((if bool_decide (key r ∈ ks) then f r else 0)
         + Zsum (map (fun k => Zsum (map f (List.filter
                  (fun r0 => bool_decide (key r0 = k)) df))) ks))%Z).
    { clear IH. induction ks as [|k ks IHk]; simpl.
      - done.
      - apply NoDup_cons_iff in Hks as [Hk Hks]. rewrite (IHk Hks).
        destruct (decide (key r = k)) as [E|E].
        + rewrite (bool_decide_eq_true_2 _ E).
          rewrite (bool_decide_eq_true_2 (key r ∈ k :: ks)) by (rewrite E; by left).
          rewrite (bool_decide_eq_false_2 (key r ∈ ks)); [simpl; lia|].
          rewrite E. by rewrite list_elem_of_In.
        + rewrite (bool_decide_eq_false_2 _ E).
          destruct (decide (key r ∈ ks)) as [E'|E'].
          * rewrite (bool_decide_eq_true_2 _ E').
            rewrite (bool_decide_eq_true_2 (key r ∈ k :: ks)) by (by right). lia.
          * rewrite (bool_decide_eq_false_2 _ E').
            rewrite (bool_decide_eq_false_2 (key r ∈ k :: ks)); [lia|].
            intros [?|?]%elem_of_cons; done. }
    rewrite Hstep, IH. by destruct (bool_decide (key r ∈ ks)).
Qed.

Lemma typed_keys_In {num} (df : list (Typed.row num)) (k : value) :
  In k (typed_keys df) <-> k <> VNull /\ exists r, In r df /\ Typed.keyword r = k.
Proof.
  unfold typed_keys.
  rewrite (Permutation_in' (eq_refl k) (sort_by_Permutation _ _)) by done.
  rewrite unique_In, List.filter_In, in_map_iff.
  split.
  - intros [(r & <- & Hr) Hn]. split; [|by exists r].
    intros E. by rewrite E in Hn.
  - intros [Hn (r & Hr & <-)]. split; [by exists r|].
    by destruct (Typed.keyword r).
Qed.

Lemma typed_keys_NoDup {num} (df : list (Typed.row num)) : List.NoDup (typed_keys df).
Proof.
  eapply Permutation_NoDup; [symmetry; apply sort_by_Permutation|].
  apply unique_NoDup.
Qed.

(** C8, as the code has it: when the clicks are whole numbers, held in an
    int64 column, the [total_clicks] of the keyword summary add up to the
    clicks of the rows of the filtered table whose keyword is not missing,
    both sums being taken in 64-bit arithmetic, overflow included. *)
Theorem summary_total_clicks (filtered_df : list (Typed.row Z)) :
  summary_clicks_total 0%Z add64 filtered_df = rows_clicks_total 0%Z add64 filtered_df.
Proof.
  unfold summary_clicks_total, rows_clicks_total.
  rewrite !column_sum_int64.
  unfold typed_summary.
  rewrite (Zsum_Permutation _ _ (Permutation_map _ (sort_by_Permutation _ _))).
  rewrite map_map. simpl.
  rewrite (map_ext _ (fun k => wrap64 (Zsum (map Typed.clicks (typed_group filtered_df k)))))
    by (intros k; apply column_sum_int64).
  rewrite <- (map_map (fun k => Zsum (map Typed.clicks (typed_group filtered_df k))) wrap64).
  rewrite Zsum_wrap64. f_equal.
  unfold typed_group.
  rewrite (Zsum_groups Typed.keyword Typed.clicks _ _ (typed_keys_NoDup filtered_df)).
  f_equal. f_equal.
  apply List.filter_ext_in. intros r Hr.
  destruct (notna (Typed.keyword r)) eqn:E.
  - apply bool_decide_eq_true_2, list_elem_of_In, typed_keys_In.
    split; [intros E'; by rewrite E' in E|by exists r].
  - apply bool_decide_eq_false_2. intros Hk.
    apply list_elem_of_In, typed_keys_In in Hk as [Hk _].
    by destruct (Typed.keyword r).
Qed.

(** Two rows of the largest int64 under one keyword: both sums wrap to -2. *)
Lemma summary_total_clicks_overflow :
  let df :=
    [ {| Typed.search_term := VStr "roof repair near me"; Typed.keyword := VStr "roof repair";
         Typed.clicks := 9223372036854775807%Z |};
      {| Typed.search_term := VStr "roof repair cost"; Typed.keyword := VStr "roof repair";
         Typed.clicks := 9223372036854775807%Z |} ] in
  summary_clicks_total 0%Z add64 df = (-2)%Z /\ rows_clicks_total 0%Z add64 df = (-2)%Z.
Proof. split; vm_compute; reflexivity. Qed.

(** C8, counterexample: three rows with the clicks 0.01, 0.01 and 0.04 in a
    float64 column, the first and the third under one keyword.  The summary
    holds 0.05 and 0.01, which add up to 0.060000000000000005; the clicks of
    the rows add up to 0.06. *)
Lemma summary_total_clicks_float64 :
  let df :=
    [ {| Typed.search_term := VStr "roof repair near me"; Typed.keyword := VStr "roof repair";
         Typed.clicks := 0x1.47ae147ae147bp-7%float |};
      {| Typed.search_term := VStr "roof leak"; Typed.keyword := VStr "roof leak";
         Typed.clicks := 0x1.47ae147ae147bp-7%float |};
      {| Typed.search_term := VStr "roof repair cost"; Typed.keyword := VStr "roof repair";
         Typed.clicks := 0x1.47ae147ae147bp-5%float |} ] in
  map Typed.total_clicks (typed_summary 0%float PrimFloat.add df)
  = [0x1.999999999999ap-5%float; 0x1.47ae147ae147bp-7%float] /\
  summary_clicks_total 0%float PrimFloat.add df = 0x1.eb851eb851eb9p-5%float /\
  rows_clicks_total 0%float PrimFloat.add df = 0x1.eb851eb851eb8p-5%float /\
  summary_clicks_total 0%float PrimFloat.add df <> rows_clicks_total 0%float PrimFloat.add df.
Proof.
  intros df.
  assert (H1 : summary_clicks_total 0%float PrimFloat.add df = 0x1.eb851eb851eb9p-5%float)
    by (vm_compute; reflexivity).
  assert (H2 : rows_clicks_total 0%float PrimFloat.add df = 0x1.eb851eb851eb8p-5%float)
    by (vm_compute; reflexivity).
  split; [vm_compute; reflexivity|]. split; [exact H1|]. split; [exact H2|].
  rewrite H1, H2. intros E.
  apply (f_equal (fun x => PrimFloat.eqb x 0x1.eb851eb851eb8p-5%float)) in E.
  vm_compute in E. discriminate.
Qed.

(** C2, as the code has it: the keyword summary has exactly one row for each
    keyword value that is not missing and occurs in the filtered table, that
    row aggregates the rows with this keyword, and there is no row for the
    rows whose keyword is missing. *)
Theorem summary_groups_non_null_keywords (filtered_df : list row) :
  List.NoDup (map (fun s => Agg.keyword (Summary.agg s)) (summary filtered_df)) /\
  (forall k : value,
      In k (map (fun s => Agg.keyword (Summary.agg s)) (summary filtered_df)) <->
      k <> VNull /\ exists r, In r filtered_df /\ keyword r = k) /\
  (forall s : Summary.t,
      In s (summary filtered_df) ->
      let g := List.filter (fun r => bool_decide (keyword r = Agg.keyword (Summary.agg s)))
                 filtered_df in
      Agg.total_search_terms (Summary.agg s) = nunique (map search_term g) /\
      Agg.total_impressions (Summary.agg s) = sum_Q (map impressions g) /\
      Agg.total_clicks (Summary.agg s) = sum_Q (map clicks g) /\
      Agg.total_cost (Summary.agg s) = sum_Q (map cost g)).
Proof.
  split; [|split].
  - eapply Permutation_NoDup; [symmetry; apply summary_keywords|].
    apply group_keys_NoDup.
  - intros k.
    rewrite (Permutation_in' (eq_refl k) (summary_keywords filtered_df)) by done.
    apply group_keys_In.
  - intros s Hs.
    apply (Permutation_in _ (summary_Permutation filtered_df)) in Hs.
    apply in_map_iff in Hs as (k & <- & _). simpl. done.
Qed.

(** C2, counterexample: a table whose only row has no keyword; its keyword
    summary is empty. *)
Lemma summary_drops_missing_keyword :
  let r := {| search_term := VStr "roof repair near me"; keyword := VNull;
              campaign := VStr "Roofing"; ad_group := VStr "Repair";
              match_type := VStr "Broad match";
              impressions := 12; clicks := 3; cost := 4; account := "report.csv" |} in
  (exists r', In r' [r] /\ keyword r' = VNull) /\
  summary [r] = [].
Proof. split; [|reflexivity]. eexists. split; [by left|reflexivity]. Qed.

(** ** The ratios [CTR] and [CPC] *)

Lemma truediv_finite a b : is_finite (truediv a b) = negb (Qeq_bool b 0).
Proof.
  unfold truediv. destruct (Qeq_bool b 0); [|done].
  by destruct (a ?= 0)%Q.
Qed.



(** C1, on the code: two rows of a report.  In the first the impressions read
    as no number (a thousands separator) and become 0 while there are 2
    clicks: the [CTR] of its keyword is infinite.  The second has no click and
    no cost: the [CPC] of its keyword is NaN. *)
Theorem ratios_not_finite :
  let merged :=
    [ {| m_search_term := VStr "roof repair near me"; m_keyword := VStr "roof repair";
         m_campaign := VStr "Roofing"; m_ad_group := VStr "Repair";
         m_match_type := VStr "Phrase match";
         m_impr := None; m_interactions := Some 2%Q; m_cost := Some (3 # 2)%Q;
         m_account := "report.csv" |};
      {| m_search_term := VStr "roof leak"; m_keyword := VStr "roof leak";
         m_campaign := VStr "Roofing"; m_ad_group := VStr "Repair";
         m_match_type := VStr "Exact match";
         m_impr := Some 40%Q; m_interactions := Some 0%Q; m_cost := Some 0%Q;
         m_account := "report.csv" |} ] in
  exists s1 s2 : Summary.t,
    summary (normalize merged) = [s1; s2] /\
    Agg.keyword (Summary.agg s1) = VStr "roof leak" /\
    Agg.total_clicks (Summary.agg s1) = 0%Q /\
    Summary.CPC s1 = NaN /\
    Agg.keyword (Summary.agg s2) = VStr "roof repair" /\
    Agg.total_impressions (Summary.agg s2) = 0%Q /\
    Summary.CTR s2 = PosInf.
Proof. simpl. eexists _, _. split; [vm_compute; reflexivity|]. vm_compute. tauto. Qed.

(** ** The gap detector *)

Lemma list_to_set_unique (l : list string) :
  list_to_set (C := gset string) (unique l) = list_to_set l.
Proof.
  apply set_eq. intros x.
  by rewrite !elem_of_list_to_set, !list_elem_of_In, unique_In.
Qed.

Lemma elem_of_all_search_terms df s :
  s ∈ all_search_terms df <-> exists r, In r df /\ search_term_clean r = s.
Proof.
  unfold all_search_terms.
  rewrite list_to_set_unique, elem_of_list_to_set, list_elem_of_In, in_map_iff.
  split; intros (r & H1 & H2); by exists r.
Qed.

Lemma elem_of_all_keywords df s :
  s ∈ all_keywords df <-> s <> "" /\ exists r, In r df /\ keyword_clean r = s.
Proof.
  unfold all_keywords.
  rewrite list_to_set_unique, elem_of_difference, elem_of_list_to_set,
    list_elem_of_In, in_map_iff, elem_of_singleton.
  split.
  - intros [(r & H1 & H2) Hn]. split; [done|by exists r].
  - intros [Hn (r & H1 & H2)]. split; [by exists r|done].
Qed.

Lemma uncovered_df_In df r :
  In r (uncovered_df df) <-> In r df /\ search_term_clean r ∈ uncovered_terms df.
Proof. unfold uncovered_df. by rewrite List.filter_In, bool_decide_eq_true. Qed.

Lemma uncovered_row_not_covered df r :
  In r (uncovered_df df) -> search_term_clean r ∉ all_keywords df.
Proof.
  rewrite uncovered_df_In. unfold uncovered_terms.
  rewrite elem_of_difference. tauto.
Qed.

Lemma full_detailed_list_In unc d :
  In d (full_detailed_list unc) <-> exists r, In r unc /\ d = detail_columns r.
Proof.
  unfold full_detailed_list.
  rewrite (Permutation_in' (eq_refl d) (sort_by_Permutation _ _)) by done.
  rewrite in_map_iff.
  split; intros (r & H1 & H2); by exists r.
Qed.

Lemma gap_analysis_tables df agg detailed :
  gap_analysis df = Tables agg detailed ->
  uncovered_df df <> [] /\
  agg = uncovered_summary (uncovered_df df) /\
  detailed = full_detailed_list (uncovered_df df).
Proof.
  unfold gap_analysis.
  destruct (uncovered_df df) as [|r unc] eqn:E; simpl; [done|].
  intros [= <- <-]. done.
Qed.

Lemma gap_analysis_info df :
  gap_analysis df = fully_covered <-> uncovered_df df = [].
Proof.
  unfold gap_analysis.
  destruct (uncovered_df df) as [|r unc] eqn:E; simpl; [done|].
  split; discriminate.
Qed.

(** C5: the uncovered set is the set of cleaned search terms minus the set of
    cleaned keywords without the empty string; on the two rows of the
    specification (whatever their other columns) it is [{free quote}]; and
    every row whose cleaned search term is uncovered is in the detailed
    list, the two tables being then the ones shown. *)
Theorem gap_set_correct :
  (forall filtered_df : list row,
      uncovered_terms filtered_df
      = list_to_set (map search_term_clean filtered_df)
          ∖ (list_to_set (map keyword_clean filtered_df) ∖ {[ "" ]})) /\
  (forall (c1 g1 m1 c2 g2 m2 : value) (i1 k1 o1 i2 k2 o2 : Q) (a1 a2 : string),
      uncovered_terms
        [ {| search_term := VStr "free quote"; keyword := VStr "roofing quote";
             campaign := c1; ad_group := g1; match_type := m1;
             impressions := i1; clicks := k1; cost := o1; account := a1 |};
          {| search_term := VStr "roof repair"; keyword := VStr "roof repair";
             campaign := c2; ad_group := g2; match_type := m2;
             impressions := i2; clicks := k2; cost := o2; account := a2 |} ]
      = {[ "free quote" ]}) /\
  (forall (filtered_df : list row) (r : row),
      In r filtered_df ->
      search_term_clean r ∈ uncovered_terms filtered_df ->
      exists aggregated detailed,
        gap_analysis filtered_df = Tables aggregated detailed /\
        In (detail_columns r) detailed).
Proof.
  assert (H1 : forall df : list row,
      uncovered_terms df
      = list_to_set (map search_term_clean df)
          ∖ (list_to_set (map keyword_clean df) ∖ {[ "" ]})).
  { intros df. unfold uncovered_terms, all_search_terms, all_keywords.
    by rewrite !list_to_set_unique. }
  split; [exact H1|split].
  - intros. rewrite H1.
    change (map search_term_clean _) with
      [clean_text (VStr "free quote"); clean_text (VStr "roof repair")].
    change (map keyword_clean _) with
      [clean_text (VStr "roofing quote"); clean_text (VStr "roof repair")].
    replace (clean_text (VStr "free quote")) with "free quote" by (vm_compute; reflexivity).
    replace (clean_text (VStr "roof repair")) with "roof repair" by (vm_compute; reflexivity).
    replace (clean_text (VStr "roofing quote")) with "roofing quote" by (vm_compute; reflexivity).
    apply set_eq. intros x.
    rewrite !elem_of_difference, !elem_of_list_to_set, !elem_of_cons, !elem_of_nil,
      !elem_of_singleton.
    split.
    + intros [[->|[->|[]]] H]; [done|]. exfalso. apply H. split; [tauto|done].
    + intros ->. split; [by left|]. intros [[?|[?|[]]] _]; discriminate.
  - intros df r Hr Hu.
    assert (Hin : In r (uncovered_df df)) by (by apply uncovered_df_In).
    unfold gap_analysis.
    destruct (uncovered_df df) as [|r0 unc] eqn:E; [done|]. simpl.
    eexists _, _. split; [reflexivity|].
    apply full_detailed_list_In. by exists r.
Qed.

Lemma fully_covered_cond (filtered_df : list row) :
  uncovered_df filtered_df = [] <->
  forall r, In r filtered_df ->
    search_term_clean r <> "" /\
    exists r', In r' filtered_df /\ keyword_clean r' = search_term_clean r.
Proof.
  split.
  - intros E r Hr.
    apply elem_of_all_keywords.
    destruct (decide (search_term_clean r ∈ all_keywords filtered_df)) as [H|H]; [done|].
    assert (Hin : In r (uncovered_df filtered_df)); [|by rewrite E in Hin].
    apply uncovered_df_In. split; [done|].
    unfold uncovered_terms. apply elem_of_difference. split; [|done].
    apply elem_of_all_search_terms. by exists r.
  - intros H. destruct (uncovered_df filtered_df) as [|r unc] eqn:E; [done|].
    assert (Hin : In r (uncovered_df filtered_df)) by (rewrite E; by left).
    pose proof (uncovered_row_not_covered _ _ Hin) as Hn.
    apply uncovered_df_In in Hin as [Hr _].
    exfalso. apply Hn, elem_of_all_keywords. by apply H.
Qed.

Lemma full_detailed_list_nil (unc : list row) : full_detailed_list unc = [] -> unc = [].
Proof.
  destruct unc as [|r unc]; [done|]. intros E.
  assert (Hin : In (detail_columns r) (full_detailed_list (r :: unc))).
  { apply full_detailed_list_In. exists r. split; [by left|done]. }
  by rewrite E in Hin.
Qed.

(** C7, as the code has it: the message that all search terms are covered is
    shown exactly when every cleaned search term of the filtered table is not
    empty and is the cleaned keyword of some row; a table without rows is such
    a table.  In every other case the section shows the two tables, the
    aggregated table and the detailed list of the uncovered rows, and the
    detailed list is not empty. *)
Theorem fully_covered_iff (filtered_df : list row) :
  (gap_analysis filtered_df = fully_covered <->
   forall r, In r filtered_df ->
     search_term_clean r <> "" /\
     exists r', In r' filtered_df /\ keyword_clean r' = search_term_clean r) /\
  (~ (forall r, In r filtered_df ->
        search_term_clean r <> "" /\
        exists r', In r' filtered_df /\ keyword_clean r' = search_term_clean r) ->
   gap_analysis filtered_df
   = Tables (uncovered_summary (uncovered_df filtered_df))
            (full_detailed_list (uncovered_df filtered_df)) /\
   full_detailed_list (uncovered_df filtered_df) <> []) /\
  (forall aggregated detailed,
     gap_analysis filtered_df = Tables aggregated detailed -> detailed <> []) /\
  gap_analysis [] = fully_covered.
Proof.
  split; [|split; [|split; [|reflexivity]]].
  - rewrite gap_analysis_info. apply fully_covered_cond.
  - intros Hn. rewrite <- fully_covered_cond in Hn.
    split.
    + unfold gap_analysis. by destruct (uncovered_df filtered_df).
    + intros E. by apply Hn, full_detailed_list_nil.
  - intros agg detailed H.
    apply gap_analysis_tables in H as (Hne & _ & ->).
    intros E. by apply Hne, full_detailed_list_nil.
Qed.

(** C7, counterexample: the search term [+] under the keyword [+].  The
    cleaned search term is the cleaned keyword of the row, both being empty,
    and the tables are shown, not the message. *)
Lemma fully_covered_counterexample :
  let r := {| search_term := VStr "+"; keyword := VStr "+";
              campaign := VStr "Roofing"; ad_group := VStr "Repair";
              match_type := VStr "Broad match";
              impressions := 7; clicks := 1; cost := 2; account := "report.csv" |} in
  (forall r1, In r1 [r] -> exists r2, In r2 [r] /\ keyword_clean r2 = search_term_clean r1) /\
  gap_analysis [r] <> fully_covered /\
  gap_analysis [r] = Tables (uncovered_summary [r]) (full_detailed_list [r]).
Proof.
  intros r. split; [|split].
  - intros r1 [<-|[]]. exists r. split; [by left|reflexivity].
  - vm_compute. discriminate.
  - vm_compute. reflexivity.
Qed.

Lemma uncovered_summary_In unc a :
  In a (uncovered_summary unc) ->
  exists r, In r unc /\ search_term r = TermAgg.search_term a.
Proof.
  unfold uncovered_summary.
  rewrite (Permutation_in' (eq_refl a) (sort_by_Permutation _ _)) by done.
  rewrite in_map_iff. intros (k & <- & Hk).
  apply group_keys_In in Hk as (_ & r & Hr & <-). by exists r.
Qed.

Lemma uncovered_df_not_self_covered df r :
  In r (uncovered_df df) -> keyword_clean r <> "" -> search_term_clean r <> keyword_clean r.
Proof.
  intros Hr Hk E.
  pose proof (uncovered_row_not_covered _ _ Hr) as Hn.
  apply uncovered_df_In in Hr as [Hr _].
  apply Hn, elem_of_all_keywords. rewrite E. split; [done|]. by exists r.
Qed.

(** C9: a row of the detailed list whose own cleaned keyword is not empty has
    a cleaned search term that differs from it; so has every row of the table
    that stands behind a row of the aggregated summary. *)
Theorem uncovered_row_not_self_covered
    (filtered_df : list row) (aggregated : list TermAgg.t) (detailed : list Detail.t) :
  gap_analysis filtered_df = Tables aggregated detailed ->
  (forall d : Detail.t,
      In d detailed ->
      clean_text (Detail.keyword d) <> "" ->
      clean_text (Detail.search_term d) <> clean_text (Detail.keyword d)) /\
  (forall (a : TermAgg.t) (r : row),
      In a aggregated ->
      In r filtered_df ->
      search_term r = TermAgg.search_term a ->
      keyword_clean r <> "" ->
      search_term_clean r <> keyword_clean r).
Proof.
  intros H.
  apply gap_analysis_tables in H as (_ & -> & ->). split.
  - intros d Hd Hk.
    apply full_detailed_list_In in Hd as (r & Hr & ->). simpl in *.
    by apply (uncovered_df_not_self_covered filtered_df r).
  - intros a r Ha Hr Hst.
    apply uncovered_summary_In in Ha as (r0 & Hr0 & E0).
    apply (uncovered_df_not_self_covered filtered_df).
    apply uncovered_df_In. split; [done|].
    apply uncovered_df_In in Hr0 as [_ Hu].
    unfold search_term_clean in *. by rewrite Hst, <- E0.
Qed.

Lemma uncovered_row_not_self_covered_witness :
  clean_text (VStr "free quote") <> clean_text (VStr "roofing quote").
Proof.
  pose (r := {| search_term := VStr "free quote"; keyword := VStr "roofing quote";
                campaign := VStr "Roofing"; ad_group := VStr "Quotes";
                match_type := VStr "Broad match";
                impressions := 10; clicks := 2; cost := 3; account := "report.csv" |}).
  refine (proj1 (uncovered_row_not_self_covered [r] (uncovered_summary [r])
                   [detail_columns r] _) (detail_columns r) _ _).
  - vm_compute. reflexivity.
  - left. reflexivity.
  - vm_compute. discriminate.
Defined.

(** ** The loader *)

Lemma loader_fold (files : list upload) (st : loader_state) :
  fold_left loader_step files st
  = {| all_dfs := all_dfs st ++ map file_rows (List.filter parsed files);
       st_errors := st_errors st ++ concat (map file_errors files) |}.
Proof.
  revert st. induction files as [|f files IH]; intros st; simpl.
  - rewrite !app_nil_r. by destruct st.
  - rewrite IH. unfold loader_step, parsed at 2, file_errors at 2.
    destruct (read_csv f) as [e|records] eqn:E; simpl.
    + f_equal. by rewrite <- app_assoc.
    + f_equal. rewrite <- app_assoc. simpl. unfold file_rows at 2. by rewrite E.
Qed.

Lemma concat_file_rows (files : list upload) :
  concat (map file_rows (List.filter parsed files)) = concat (map file_rows files).
Proof.
  induction files as [|f files IH]; simpl; [done|].
  unfold parsed at 1, file_rows at 2.
  destruct (read_csv f) as [e|records] eqn:E; simpl; [done|].
  rewrite IH. unfold file_rows at 1. by rewrite E.
Qed.

Lemma length_file_errors (files : list upload) :
  length (concat (map file_errors files))
  = length (List.filter (fun f => negb (parsed f)) files).
Proof.
  induction files as [|f files IH]; simpl; [done|].
  rewrite length_app, IH. unfold file_errors, parsed.
  by destruct (read_csv f).
Qed.

Lemma load_eq (uploaded_files : list upload) :
  load uploaded_files
  = (concat (map file_errors uploaded_files),
     if empty (List.filter parsed uploaded_files)
     then inl (ValueError "No objects to concatenate")
     else inr (concat (map file_rows uploaded_files))).
Proof.
  unfold load. rewrite loader_fold. simpl. f_equal.
  rewrite <- concat_file_rows.
  by destruct (List.filter parsed uploaded_files).
Qed.

(** C6: the loop reports one message for each file that does not parse, in
    the order of the files, and goes on; the merged table is made of the rows
    of the files that parse, in the order of the files; the run fails, with
    the [ValueError] that [pd.concat] raises on an empty list, if and only if
    no file parses. *)
Theorem loader_partial_failure (uploaded_files : list upload) :
  fst (load uploaded_files) = concat (map file_errors uploaded_files) /\
  length (fst (load uploaded_files))
  = length (List.filter (fun f => negb (parsed f)) uploaded_files) /\
  snd (load uploaded_files)
  = (if empty (List.filter parsed uploaded_files)
     then inl (ValueError "No objects to concatenate")
     else inr (concat (map file_rows uploaded_files))) /\
  ((exists e, snd (load uploaded_files) = inl e) <->
   List.filter parsed uploaded_files = []).
Proof.
  rewrite load_eq. simpl.
  split; [done|]. split; [apply length_file_errors|]. split; [done|].
  destruct (List.filter parsed uploaded_files); simpl.
  - split; [done|]. intros _. by eexists.
  - split; [intros [e He]|]; discriminate.
Qed.

(** Three files of which the second does not parse: one message, and the rows
    of the first and of the third file. *)
Lemma loader_three_files (f1 f2 f3 : upload) (e : string) (t1 t3 : list csv_record) :
  read_csv f1 = inr t1 -> read_csv f2 = inl e -> read_csv f3 = inr t3 ->
  load [f1; f2; f3]
  = (["Error reading " +:+ name f2 +:+ ": " +:+ e],
     inr (map (tag_account (name f1)) t1 ++ map (tag_account (name f3)) t3)).
Proof.
  intros H1 H2 H3. unfold load. simpl.
  unfold loader_step. rewrite H1. simpl. rewrite H2. simpl. rewrite H3. simpl.
  by rewrite app_nil_r.
Qed.

(** ** The normaliser *)

Lemma read_cell_not_empty (t : token) : read_cell t <> VStr "".
Proof.
  destruct t as [s|z]; simpl; [|done].
  destruct (decide (s ∈ na_values)) as [|Hn]; [done|].
  intros [= ->]. apply Hn. by left.
Qed.

Lemma loaded_search_term (files : list upload) (m : merged_row) :
  In m (concat (map file_rows files)) -> m_search_term m <> VStr "".
Proof.
  rewrite in_concat. intros (t & Ht & Hm).
  apply in_map_iff in Ht as (f & <- & _).
  unfold file_rows in Hm. destruct (read_csv f) as [e|records]; [done|].
  apply in_map_iff in Hm as (c & <- & _). simpl.
  apply read_cell_not_empty.
Qed.

Lemma filter_map_comm {A B} (f : A -> B) (p : B -> bool) (l : list A) :
  List.filter p (map f l) = map f (List.filter (fun a => p (f a)) l).
Proof.
  induction l as [|a l IH]; simpl; [done|].
  destruct (p (f a)); simpl; by rewrite IH.
Qed.

(** C4: on the table the loader produces, the normaliser keeps exactly the
    rows whose search term is neither missing nor empty, in their order. *)
Theorem normalize_keeps_rows_with_search_term
    (uploaded_files : list upload) (errors : list string) (merged : list merged_row) :
  load uploaded_files = (errors, inr merged) ->
  normalize merged = map rename_and_clean_numbers (List.filter has_search_term merged).
Proof.
  rewrite load_eq. intros [= _ Hs].
  destruct (empty (List.filter parsed uploaded_files)); [done|].
  injection Hs as <-.
  unfold normalize, dropna_search_term. rewrite filter_map_comm. f_equal.
  apply List.filter_ext_in. intros m Hm. simpl.
  apply loaded_search_term in Hm. unfold has_search_term.
  destruct (m_search_term m) as [|[|c s]|z]; done.
Qed.

Lemma normalize_keeps_rows_with_search_term_witness :
  let f := {| name := "report.csv";
              read_csv := inr
                [ {| csv_search_term := TText "roof repair"; csv_keyword := TText "roof repair";
                     csv_campaign := TText "Roofing"; csv_ad_group := TText "Repair";
                     csv_match_type := TText "Exact match";
                     csv_impr := Some 10%Q; csv_interactions := Some 2%Q;
                     csv_cost := Some 3%Q |};
                  {| csv_search_term := TText ""; csv_keyword := TText "Total";
                     csv_campaign := TText ""; csv_ad_group := TText "";
                     csv_match_type := TText "";
                     csv_impr := Some 10%Q; csv_interactions := Some 2%Q;
                     csv_cost := Some 3%Q |} ] |} in
  normalize (file_rows f) = map rename_and_clean_numbers (List.filter has_search_term (file_rows f)).
Proof.
  intros f.
  apply (normalize_keeps_rows_with_search_term [f] [] (file_rows f)).
  vm_compute. reflexivity.
Defined.

(** ** [clean_text] on values that are no strings *)

(** Without [str(x)] the first method call raises on a number. *)
Lemma lower_on_number (z : Z) :
  str_method "lower" py_lower (SInt z)
  = inl (AttributeError "object has no attribute lower").
Proof. reflexivity. Qed.

Lemma clean_text_dyn_scalar (v : scalar) :
  clean_text_dyn (Scalar v)
  = inr (SStr (if scalar_isna v then "" else clean_str (scalar_str v))).
Proof.
  unfold clean_text_dyn.
  destruct (scalar_isna v); [done|]. simpl.
  unfold clean_str. by rewrite !on_chars_compose.
Qed.

Lemma clean_text_dyn_ok (x : value) :
  clean_text_dyn (Scalar (scalar_of_value x)) = inr (SStr (clean_text x)).
Proof. rewrite clean_text_dyn_scalar. by destruct x. Qed.

Lemma none_starts_ends (p : ascii -> bool) x :
  (forall c, In c x -> p c = false) ->
  starts_with p x = false /\ ends_with p x = false.
Proof.
  intros H. split.
  - destruct x as [|c x]; [done|]. simpl. apply H. by left.
  - induction x as [|c x IH]; [done|].
    destruct x as [|c' x'].
    + simpl. apply H. by left.
    + rewrite ends_with_cons by done. apply IH. intros d Hd. apply H. by right.
Qed.

Lemma collapse_spaces_id x :
  (forall c, In c x -> is_space c = false) -> collapse_spaces x = x.
Proof.
  induction x as [|c x IH]; simpl; [done|]. intros H.
  rewrite (H c) by (by left). f_equal. apply IH. intros d Hd. apply H. by right.
Qed.

Lemma plain_spec c :
  plain c = true ->
  is_space c = false /\ is_plus c = false /\ is_bracket c = false /\ lower_char c = c.
Proof.
  unfold plain. rewrite !andb_true_iff, !negb_true_iff, bool_decide_eq_true. tauto.
Qed.

Lemma clean_chars_plain x : forallb plain x = true -> clean_chars x = x.
Proof.
  rewrite forallb_forall. intros H.
  assert (Hs := none_starts_ends is_space x (fun c Hc => proj1 (plain_spec c (H c Hc)))).
  assert (Hb := none_starts_ends is_bracket x
                  (fun c Hc => proj1 (proj2 (proj2 (plain_spec c (H c Hc)))))).
  apply cleaned_fix; [|tauto|tauto].
  split; try tauto.
  - intros c Hc. by apply plain_spec, H.
  - intros c Hc. by apply plain_spec, H.
  - apply collapse_spaces_id. intros c Hc. by apply plain_spec, H.
Qed.

Lemma pretty_N_char_plain (d : N) : plain (pretty_N_char d) = true.
Proof. unfold pretty_N_char. repeat case_match; reflexivity. Qed.

Lemma pretty_N_go_plain (n : N) (s : string) :
  forallb plain (String.list_ascii_of_string s) = true ->
  forallb plain (String.list_ascii_of_string (pretty_N_go n s)) = true.
Proof.
  revert s. induction (N.lt_wf_0 n) as [n _ IH]. intros s Hs.
  destruct (decide (n = 0)%N) as [->|Hn].
  - by rewrite pretty_N_go_0.
  - rewrite pretty_N_go_step by lia. apply IH.
    + apply N.div_lt; lia.
    + simpl. by rewrite pretty_N_char_plain.
Qed.

Lemma pretty_N_plain (n : N) :
  forallb plain (String.list_ascii_of_string (pretty n)) = true.
Proof.
  unfold pretty, pretty_N. destruct (decide (n = 0)%N); [reflexivity|].
  by apply pretty_N_go_plain.
Qed.

Lemma pretty_Z_plain (z : Z) :
  forallb plain (String.list_ascii_of_string (pretty z)) = true.
Proof.
  destruct z as [|p|p]; unfold pretty, pretty_Z; [reflexivity| |].
  - apply (pretty_N_plain (N.pos p)).
  - change (String.list_ascii_of_string ("-" +:+ pretty p))
      with ("-"%char :: String.list_ascii_of_string (pretty p)).
    simpl. apply (pretty_N_plain (N.pos p)).
Qed.

(** C10, as the code has it: with the checks of Python in place,
    [clean_text] raises on no scalar and returns a string.  [None] and NaN
    give the empty string; every other scalar is turned into its text by
    [str] and the text is cleaned, so that [True] gives [true], the float
    [1e+16] gives [1e16] and an integer its decimal text; on the cells of the
    table this is the [clean_text] of the pipeline. *)
Theorem clean_text_total :
  (forall v : scalar,
      clean_text_dyn (Scalar v)
      = inr (SStr (if scalar_isna v then "" else clean_str (scalar_str v)))) /\
  (forall x : value,
      clean_text_dyn (Scalar (scalar_of_value x)) = inr (SStr (clean_text x))) /\
  clean_text_dyn (Scalar SNone) = inr (SStr "") /\
  clean_text_dyn (Scalar SNaN) = inr (SStr "") /\
  clean_text_dyn (Scalar (SBool true)) = inr (SStr "true") /\
  clean_text_dyn (Scalar (SBool false)) = inr (SStr "false") /\
  clean_text_dyn (Scalar (SFloat "2024.0")) = inr (SStr "2024.0") /\
  clean_text_dyn (Scalar (SFloat "1e+16")) = inr (SStr "1e16") /\
  (forall z : Z, clean_text_dyn (Scalar (SInt z)) = inr (SStr (pretty z))).
Proof.
  split; [exact clean_text_dyn_scalar|]. split; [exact clean_text_dyn_ok|].
  do 6 (split; [vm_compute; reflexivity|]).
  intros z. rewrite clean_text_dyn_scalar. simpl. do 2 f_equal.
  unfold clean_str, on_chars. rewrite clean_chars_plain by apply pretty_Z_plain.
  apply String.string_of_list_ascii_of_string.
Qed.

(** C10, counterexample: a list of two numbers is no string and is not
    missing; [if pd.isna(x)] raises on it. *)
Lemma clean_text_raises_on_list :
  clean_text_dyn (PyList (SInt 1) (SInt 2) [])
  = inl (ValueError
           "The truth value of an array with more than one element is ambiguous. Use a.any() or a.all()") /\
  (forall s : scalar, clean_text_dyn (PyList (SInt 1) (SInt 2) []) <> inr s).
Proof. split; [reflexivity|]. intros s. discriminate. Qed.


(** * Further properties of the page *)

(** ** Sorted output *)

Section SortBy.
Context {A : Type} (le : A -> A -> bool).
Hypothesis le_total : forall x y, le x y = false -> le y x = true.
Hypothesis le_trans : forall x y z, le x y = true -> le y z = true -> le x z = true.

Lemma insert_by_sorted x l :
  StronglySorted (fun a b => le a b = true) l ->
  StronglySorted (fun a b => le a b = true) (insert_by le x l).
Proof.
  induction 1 as [|y l Hl IH Hy]; simpl.
  - constructor; [constructor|constructor].
  - destruct (le x y) eqn:E.
    + constructor; [by constructor|].
      constructor; [done|].
      eapply Forall_impl; [exact Hy|]. intros z Hz. by eapply le_trans.
    + constructor; [done|].
      rewrite List.Forall_forall. intros z Hz.
      apply (Permutation_in _ (insert_by_Permutation le x l)) in Hz.
      destruct Hz as [<-|Hz]; [by apply le_total|].
      rewrite List.Forall_forall in Hy. by apply Hy.
Qed.

Lemma sort_by_sorted l : StronglySorted (fun a b => le a b = true) (sort_by le l).
Proof.
  induction l as [|x l IH]; simpl; [constructor|].
  by apply insert_by_sorted.
Qed.
End SortBy.

Lemma StronglySorted_impl {A} (R S : A -> A -> Prop) l :
  (forall a b, R a b -> S a b) -> StronglySorted R l -> StronglySorted S l.
Proof.
  intros HRS. induction 1 as [|x l Hl IH Hx]; constructor; [done|].
  eapply Forall_impl; [exact Hx|]. auto.
Qed.

Lemma Qle_bool_total (x y : Q) : Qle_bool x y = false -> Qle_bool y x = true.
Proof.
  intros H. apply Qle_bool_iff.
  destruct (Qlt_le_dec x y) as [Hlt|Hle]; [|done].
  apply Qlt_le_weak, Qle_bool_iff in Hlt. congruence.
Qed.

Lemma Qle_bool_trans (x y z : Q) :
  Qle_bool x y = true -> Qle_bool y z = true -> Qle_bool x z = true.
Proof. rewrite !Qle_bool_iff. apply Qle_trans. Qed.

(** Sorting by one numeric column, largest first. *)
Lemma sort_by_desc_sorted {A} (key : A -> Q) (l : list A) :
  StronglySorted (fun a b => (key b <= key a)%Q)
    (sort_by (fun a b => Qle_bool (key b) (key a)) l).
Proof.
  eapply StronglySorted_impl; [|apply sort_by_sorted].
  - intros a b H. by apply Qle_bool_iff.
  - intros x y. apply Qle_bool_total.
  - intros x y z H1 H2. by eapply Qle_bool_trans.
Qed.

(** ** The start of the page and the merged table *)

Lemma length_concat_file_rows (files : list upload) :
  length (concat (map file_rows files))
  = list_sum (map (fun f => match read_csv f with
                            | inr records => length records
                            | inl _ => 0
                            end) files).
Proof.
  induction files as [|f files IH]; simpl; [done|].
  rewrite length_app, IH. unfold file_rows.
  destruct (read_csv f); simpl; [done|]. by rewrite length_map.
Qed.

Lemma load_inr (uploaded_files : list upload) errors merged :
  load uploaded_files = (errors, inr merged) ->
  merged = concat (map file_rows uploaded_files).
Proof.
  rewrite load_eq. intros [= _ H].
  destruct (empty (List.filter parsed uploaded_files)); [done|]. by injection H.
Qed.

(** X1: the merged table has as many rows as the files that parse have data rows:
    merging loses and adds none. *)
Theorem merged_row_count
    (uploaded_files : list upload) (errors : list string) (merged : list merged_row) :
  load uploaded_files = (errors, inr merged) ->
  length merged
  = list_sum (map (fun f => match read_csv f with
                            | inr records => length records
                            | inl _ => 0
                            end) uploaded_files).
Proof. intros H. rewrite (load_inr _ _ _ H). apply length_concat_file_rows. Qed.

Lemma normalize_In (merged : list merged_row) (r : row) :
  In r (normalize merged) <->
  search_term r <> VNull /\ exists m, In m merged /\ r = rename_and_clean_numbers m.
Proof.
  unfold normalize, dropna_search_term.
  rewrite List.filter_In, in_map_iff, negb_true_iff. split.
  - intros [(m & <- & Hm) Hn]. split; [|by exists m].
    intros E. by rewrite E in Hn.
  - intros [Hn (m & Hm & ->)]. split; [by exists m|].
    by destruct (search_term (rename_and_clean_numbers m)).
Qed.

(** X2: every row of the normalised table comes from a data row of an uploaded
    file that parsed, and its [account] is the name of that file. *)
Theorem row_provenance
    (uploaded_files : list upload) (errors : list string) (merged : list merged_row)
    (r : row) :
  load uploaded_files = (errors, inr merged) ->
  In r (normalize merged) ->
  exists (f : upload) (records : list csv_record) (c : csv_record),
    In f uploaded_files /\ read_csv f = inr records /\ In c records /\
    r = rename_and_clean_numbers (tag_account (name f) c) /\
    account r = name f.
Proof.
  intros H Hr. rewrite (load_inr _ _ _ H) in Hr.
  apply normalize_In in Hr as (_ & m & Hm & ->).
  apply in_concat in Hm as (t & Ht & Hm).
  apply in_map_iff in Ht as (f & <- & Hf).
  unfold file_rows in Hm. destruct (read_csv f) as [e|records] eqn:E; [done|].
  apply in_map_iff in Hm as (c & <- & Hc).
  by exists f, records, c.
Qed.

Lemma start_loaded (uploaded_files : list upload) :
  uploaded_files <> [] ->
  start uploaded_files
  = Loaded (concat (map file_errors uploaded_files))
      (if empty (List.filter parsed uploaded_files)
       then inl (ValueError "No objects to concatenate")
       else inr (concat (map file_rows uploaded_files))).
Proof.
  intros H. unfold start. rewrite load_eq.
  destruct uploaded_files; done.
Qed.

Lemma none_parsed_length (files : list upload) :
  List.filter parsed files = [] ->
  length (List.filter (fun f => negb (parsed f)) files) = length files.
Proof.
  induction files as [|g l IH]; simpl; [done|].
  destruct (parsed g); simpl; [done|]. intros E. by rewrite IH.
Qed.

(** X3: without a file the page stops with the warning and reports nothing; with
    files it fails exactly when none parses, and then every file has its
    message. *)
Theorem start_outcome (uploaded_files : list upload) :
  ((exists w, start uploaded_files = Stopped w) <-> uploaded_files = []) /\
  ((exists messages e, start uploaded_files = Loaded messages (inl e)) <->
   uploaded_files <> [] /\ List.filter parsed uploaded_files = []) /\
  (forall messages e,
     start uploaded_files = Loaded messages (inl e) ->
     length messages = length uploaded_files).
Proof.
  destruct (decide (uploaded_files = [])) as [->|Hne].
  - simpl. split; [|split].
    + split; [done|]. intros _. by eexists.
    + split; [intros (? & ? & [=])|intros [[] _]; done].
    + intros ? ? [=].
  - rewrite (start_loaded _ Hne).
    destruct (List.filter parsed uploaded_files) as [|u l] eqn:E; simpl.
    + split; [|split].
      * split; [intros [? [=]]|done].
      * split; [done|]. intros _. by eexists _, _.
      * intros ms e [= <- _]. rewrite length_file_errors.
        by apply none_parsed_length.
    + split; [|split].
      * split; [intros [? [=]]|done].
      * split; [intros (? & ? & [=])|intros [_ [=]]].
      * intros ? ? [=].
Qed.

Lemma merged_row_count_witness :
  let f := {| name := "a.csv";
              read_csv := inr
                [ {| csv_search_term := TText "roof repair"; csv_keyword := TText "roof repair";
                     csv_campaign := TText "Roofing"; csv_ad_group := TText "Repair";
                     csv_match_type := TText "Exact match";
                     csv_impr := Some 10%Q; csv_interactions := Some 2%Q;
                     csv_cost := Some 3%Q |} ] |} in
  let g := {| name := "b.csv"; read_csv := inl "No columns to parse from file" |} in
  length (file_rows f) = 1.
Proof.
  intros f g.
  exact (merged_row_count [f; g] ["Error reading b.csv: No columns to parse from file"]
           (file_rows f) eq_refl).
Defined.

Lemma row_provenance_witness :
  let c := {| csv_search_term := TText "roof repair"; csv_keyword := TText "roof repair";
              csv_campaign := TText "Roofing"; csv_ad_group := TText "Repair";
              csv_match_type := TText "Exact match";
              csv_impr := Some 10%Q; csv_interactions := None;
              csv_cost := Some 3%Q |} in
  let f := {| name := "a.csv"; read_csv := inr [c] |} in
  exists (f' : upload) (records : list csv_record) (c' : csv_record),
    In f' [f] /\ read_csv f' = inr records /\ In c' records /\
    rename_and_clean_numbers (tag_account "a.csv" c)
    = rename_and_clean_numbers (tag_account (name f') c') /\
    account (rename_and_clean_numbers (tag_account "a.csv" c)) = name f'.
Proof.
  intros c f.
  apply (row_provenance [f] [] (file_rows f)).
  - reflexivity.
  - left. reflexivity.
Defined.

(** ** The sidebar *)

Lemma value_eqb_true (a b : value) : value_eqb a b = true <-> b <> VNull /\ a = b.
Proof.
  unfold value_eqb. rewrite !andb_true_iff, !negb_true_iff, bool_decide_eq_true.
  split.
  - intros [[_ Hb] ->]. split; [|done]. intros E. by rewrite E in Hb.
  - intros [Hb ->]. by destruct b.
Qed.

Lemma select_account_In (account_sel : string) (df : list row) (r : row) :
  In r (select_account account_sel df) <->
  In r df /\ (account_sel = "All" \/ account r = account_sel).
Proof.
  unfold select_account.
  destruct (decide (account_sel = "All")) as [E|E].
  - rewrite (bool_decide_eq_true_2 _ E). tauto.
  - rewrite (bool_decide_eq_false_2 _ E), List.filter_In, bool_decide_eq_true. tauto.
Qed.

Lemma select_campaign_In (campaign_sel : value) (df : list row) (r : row) :
  In r (select_campaign campaign_sel df) <->
  In r df /\ (campaign_sel = VStr "All" \/ (campaign_sel <> VNull /\ campaign r = campaign_sel)).
Proof.
  unfold select_campaign.
  destruct (decide (campaign_sel = VStr "All")) as [E|E].
  - rewrite (bool_decide_eq_true_2 _ E). tauto.
  - rewrite (bool_decide_eq_false_2 _ E), List.filter_In, value_eqb_true. tauto.
Qed.

(** X5: the rows in scope are the rows of the selected account, [All] standing
    for every account, that have the selected campaign, [All] standing for
    every campaign; a missing campaign matches no row. *)
Theorem sidebar_scope (account_sel : string) (campaign_sel : value) (df : list row) (r : row) :
  In r (sidebar account_sel campaign_sel df) <->
  In r df /\
  (account_sel = "All" \/ account r = account_sel) /\
  (campaign_sel = VStr "All" \/ (campaign_sel <> VNull /\ campaign r = campaign_sel)).
Proof. unfold sidebar. rewrite select_campaign_In, select_account_In. tauto. Qed.

(** X6: choosing the account of a row and then its campaign keeps the row, unless
    the campaign is missing: the entry of the missing campaign, which the
    select box offers when a row has none, gives an empty table. *)
Theorem sidebar_entries (df : list row) :
  (forall r, In r df -> In (account r) (account_options df) /\
                        In (campaign r) (campaign_options (select_account (account r) df))) /\
  (forall r, In r df -> campaign r <> VNull -> In r (sidebar (account r) (campaign r) df)) /\
  (forall account_sel, sidebar account_sel VNull df = []).
Proof.
  split; [|split].
  - intros r Hr. split.
    + right. apply unique_In, in_map_iff. by exists r.
    + right. apply unique_In, in_map_iff. exists r. split; [done|].
      apply select_account_In. tauto.
  - intros r Hr Hc. unfold sidebar.
    apply select_campaign_In. split; [apply select_account_In|]; tauto.
  - intros a. unfold sidebar, select_campaign. simpl.
    induction (select_account a df) as [|r l IH]; simpl; [done|].
    unfold value_eqb at 1. simpl. by rewrite andb_false_r.
Qed.

(** ** More on the keyword summary *)

Lemma StronglySorted_map {A B} (f : A -> B) (R : B -> B -> Prop) (l : list A) :
  StronglySorted (fun a b => R (f a) (f b)) l -> StronglySorted R (map f l).
Proof.
  induction 1 as [|x l Hl IH Hx]; simpl; constructor; [done|].
  rewrite List.Forall_forall in *. intros y Hy.
  apply in_map_iff in Hy as (a & <- & Ha). by apply Hx.
Qed.

(** X7: the keyword summary lists the keywords with the most distinct search
    terms first. *)
Theorem summary_sorted (filtered_df : list row) :
  StronglySorted
    (fun s1 s2 => Agg.total_search_terms (Summary.agg s2)
                  <= Agg.total_search_terms (Summary.agg s1))
    (summary filtered_df).
Proof.
  unfold summary. apply StronglySorted_map. simpl.
  eapply StronglySorted_impl; [|apply (sort_by_sorted more_terms)].
  - intros a b H. unfold more_terms in H. by apply Nat.leb_le in H.
  - intros x y H. unfold more_terms in *.
    apply Nat.leb_le. apply Nat.leb_gt in H. lia.
  - intros x y z. unfold more_terms. rewrite !Nat.leb_le. lia.
Qed.

Lemma summary_In (filtered_df : list row) (s : Summary.t) :
  In s (summary filtered_df) ->
  Agg.keyword (Summary.agg s) <> VNull /\
  (exists r, In r filtered_df /\ keyword r = Agg.keyword (Summary.agg s)) /\
  s = with_ratios (agg_keyword filtered_df (Agg.keyword (Summary.agg s))).
Proof.
  intros Hs.
  apply (Permutation_in _ (summary_Permutation filtered_df)) in Hs.
  apply in_map_iff in Hs as (k & <- & Hk). simpl.
  apply group_keys_In in Hk as [Hn Hr]. done.
Qed.

Lemma unique_length_le `{EqDecision A} (l : list A) : length (unique l) <= length l.
Proof.
  induction l as [|x l IH]; simpl; [done|].
  pose proof (List.filter_length_le (fun y => bool_decide (y <> x)) (unique l)). lia.
Qed.

Lemma nunique_bounds (l : list value) :
  nunique l <= length l /\ ((exists v, In v l /\ v <> VNull) -> 1 <= nunique l).
Proof.
  unfold nunique. split.
  - pose proof (unique_length_le (List.filter notna l)).
    pose proof (List.filter_length_le notna l). lia.
  - intros (v & Hv & Hn).
    assert (Hin : In v (unique (List.filter notna l))).
    { apply unique_In, List.filter_In. split; [done|]. by destruct v. }
    destruct (unique (List.filter notna l)); [done|]. simpl. lia.
Qed.

(** X9: when no row lacks its search term, as after normalisation, every row of
    the keyword summary counts at least one search term, and never more than
    the keyword has rows. *)
Theorem summary_counts (filtered_df : list row) (s : Summary.t) :
  (forall r, In r filtered_df -> search_term r <> VNull) ->
  In s (summary filtered_df) ->
  1 <= Agg.total_search_terms (Summary.agg s)
  <= length (List.filter (fun r => bool_decide (keyword r = Agg.keyword (Summary.agg s)))
               filtered_df).
Proof.
  intros Hst Hs. apply summary_In in Hs as (_ & (r & Hr & Hk) & ->). simpl.
  set (g := group_rows keyword filtered_df _).
  pose proof (nunique_bounds (map search_term g)) as [Hle Hge].
  rewrite length_map in Hle. split; [|exact Hle].
  apply Hge. exists (search_term r). split; [|by apply Hst].
  apply in_map. unfold g, group_rows. apply List.filter_In.
  split; [done|]. by apply bool_decide_eq_true.
Qed.

Lemma summary_counts_witness :
  let r := {| search_term := VStr "roof repair near me"; keyword := VStr "roof repair";
              campaign := VStr "Roofing"; ad_group := VStr "Repair";
              match_type := VStr "Phrase match";
              impressions := 12; clicks := 3; cost := 4; account := "report.csv" |} in
  let s := with_ratios (agg_keyword [r] (VStr "roof repair")) in
  1 <= Agg.total_search_terms (Summary.agg s)
  <= length (List.filter (fun r' => bool_decide (keyword r' = Agg.keyword (Summary.agg s))) [r]).
Proof.
  intros r s.
  apply (summary_counts [r] s).
  - intros r' [<-|[]]. discriminate.
  - left. reflexivity.
Defined.


(** ** The search terms of one keyword *)

Lemma keyword_rows_group (filtered_df : list row) (k : value) :
  k <> VNull -> keyword_rows filtered_df k = group_rows keyword filtered_df k.
Proof.
  intros Hk. unfold keyword_rows, group_rows.
  apply List.filter_ext. intros r.
  destruct (bool_decide (keyword r = k)) eqn:E.
  - apply bool_decide_eq_true in E. by apply value_eqb_true.
  - apply bool_decide_eq_false in E.
    destruct (value_eqb (keyword r) k) eqn:E'; [|done].
    apply value_eqb_true in E' as [_ E']. done.
Qed.

Lemma term_details_Permutation (filtered_df : list row) (k : value) :
  Permutation (term_details filtered_df k)
    (map (agg_term_detail (keyword_rows filtered_df k))
         (group_keys search_term (keyword_rows filtered_df k))).
Proof. unfold term_details. apply sort_by_Permutation. Qed.

(** X13: for a keyword of the keyword summary that the page accepts, the section
    shows the table of its search terms, and the number in its caption is the
    count of the summary. *)
Theorem keyword_detail_count (filtered_df : list row) (s : Summary.t) :
  In s (summary filtered_df) ->
  truthy (Agg.keyword (Summary.agg s)) = true ->
  In (Agg.keyword (Summary.agg s)) (keyword_options (summary filtered_df)) /\
  keyword_detail filtered_df (Some (Agg.keyword (Summary.agg s)))
  = Some (Agg.keyword (Summary.agg s),
          Agg.total_search_terms (Summary.agg s),
          term_details filtered_df (Agg.keyword (Summary.agg s))).
Proof.
  intros Hs Ht. split.
  - unfold keyword_options. apply List.filter_In. split.
    + apply in_map_iff. by exists s.
    + apply summary_In in Hs as (Hn & _). by destruct (Agg.keyword (Summary.agg s)).
  - unfold keyword_detail. rewrite Ht. do 2 f_equal.
    rewrite (Permutation_length (term_details_Permutation _ _)), length_map.
    apply summary_In in Hs as (Hn & _ & ->). simpl in *.
    rewrite (keyword_rows_group _ _ Hn).
    rewrite (Permutation_length (group_keys_Permutation _ _)).
    reflexivity.
Qed.

Lemma keyword_detail_count_witness :
  let r1 := {| search_term := VStr "roof repair near me"; keyword := VStr "roof repair";
               campaign := VStr "Roofing"; ad_group := VStr "Repair";
               match_type := VStr "Phrase match";
               impressions := 12; clicks := 3; cost := 4; account := "report.csv" |} in
  let r2 := {| search_term := VStr "roof repair cost"; keyword := VStr "roof repair";
               campaign := VStr "Roofing"; ad_group := VStr "Repair";
               match_type := VStr "Phrase match";
               impressions := 8; clicks := 1; cost := 2; account := "report.csv" |} in
  let s := with_ratios (agg_keyword [r1; r2] (VStr "roof repair")) in
  In (VStr "roof repair") (keyword_options (summary [r1; r2])) /\
  keyword_detail [r1; r2] (Some (VStr "roof repair"))
  = Some (VStr "roof repair", 2, term_details [r1; r2] (VStr "roof repair")).
Proof.
  intros r1 r2 s.
  apply (keyword_detail_count [r1; r2] s).
  - left. reflexivity.
  - reflexivity.
Defined.

(** X15: the table of a keyword has one row for each distinct search term of the
    rows with this keyword, the most clicked first. *)
Theorem term_details_rows (filtered_df : list row) (chosen_kw : value) :
  List.NoDup (map TermDetail.search_term (term_details filtered_df chosen_kw)) /\
  (forall k, In k (map TermDetail.search_term (term_details filtered_df chosen_kw)) <->
             k <> VNull /\ chosen_kw <> VNull /\
             exists r, In r filtered_df /\ keyword r = chosen_kw /\ search_term r = k) /\
  StronglySorted (fun a b => (TermDetail.clicks b <= TermDetail.clicks a)%Q)
    (term_details filtered_df chosen_kw).
Proof.
  assert (Hp : Permutation (map TermDetail.search_term (term_details filtered_df chosen_kw))
                 (group_keys search_term (keyword_rows filtered_df chosen_kw))).
  { rewrite (Permutation_map _ (term_details_Permutation _ _)), map_map. simpl.
    by rewrite map_id. }
  split; [|split].
  - eapply Permutation_NoDup; [symmetry; exact Hp|]. apply group_keys_NoDup.
  - intros k. rewrite (Permutation_in' (eq_refl k) Hp) by done.
    rewrite group_keys_In. unfold keyword_rows. split.
    + intros [Hk (r & Hr & <-)]. apply List.filter_In in Hr as [Hr He].
      apply value_eqb_true in He as [Hc He]. split; [done|]. split; [done|]. by exists r.
    + intros (Hk & Hc & r & Hr & He & <-). split; [done|]. exists r. split; [|done].
      apply List.filter_In. split; [done|]. by apply value_eqb_true.
  - apply (sort_by_desc_sorted TermDetail.clicks).
Qed.

(** ** The mapping table *)

(** X16: the mapping table holds every row in scope once, with its five columns,
    the most clicked first. *)
Theorem mapping_rows (filtered_df : list row) :
  Permutation (mapping filtered_df) (map mapping_columns filtered_df) /\
  length (mapping filtered_df) = length filtered_df /\
  StronglySorted (fun a b => (Mapping.clicks b <= Mapping.clicks a)%Q) (mapping filtered_df).
Proof.
  split; [|split].
  - apply sort_by_Permutation.
  - unfold mapping. by rewrite (Permutation_length (sort_by_Permutation _ _)), length_map.
  - apply (sort_by_desc_sorted Mapping.clicks).
Qed.

(** ** More on the gap detector *)

(** X17: a row is listed as uncovered exactly when its cleaned search term is
    empty or is the cleaned keyword of no row in scope. *)
Theorem uncovered_row_iff (filtered_df : list row) (r : row) :
  In r (uncovered_df filtered_df) <->
  In r filtered_df /\
  (search_term_clean r = "" \/
   forall r', In r' filtered_df -> keyword_clean r' <> search_term_clean r).
Proof.
  rewrite uncovered_df_In. unfold uncovered_terms.
  rewrite elem_of_difference, elem_of_all_search_terms, elem_of_all_keywords.
  split.
  - intros [Hr [_ Hn]]. split; [done|].
    destruct (decide (search_term_clean r = "")) as [E|E]; [by left|right].
    intros r' Hr' Hk. apply Hn. split; [done|]. by exists r'.
  - intros [Hr H]. split; [done|]. split; [by exists r|].
    intros [Hne (r' & Hr' & Hk)]. destruct H as [E|H]; [done|]. by apply (H r').
Qed.

Lemma more_traffic_spec (a b : TermAgg.t) :
  more_traffic a b = true <->
  (TermAgg.total_clicks b < TermAgg.total_clicks a)%Q \/
  ((TermAgg.total_clicks a == TermAgg.total_clicks b)%Q /\
   (TermAgg.total_impressions b <= TermAgg.total_impressions a)%Q).
Proof.
  unfold more_traffic.
  destruct (Qcompare_spec (TermAgg.total_clicks a) (TermAgg.total_clicks b)) as [E|E|E].
  - rewrite Qle_bool_iff. split; [tauto|]. intros [H|[_ H]]; [|done].
    rewrite E in H. by apply Qlt_irrefl in H.
  - split; [done|]. intros [H|[H _]].
    + exfalso. apply (Qlt_irrefl (TermAgg.total_clicks a)). by eapply Qlt_trans.
    + rewrite H in E. by apply Qlt_irrefl in E.
  - tauto.
Qed.

Lemma uncovered_summary_Permutation (unc : list row) :
  Permutation (uncovered_summary unc)
    (map (agg_search_term unc) (group_keys search_term unc)).
Proof. apply sort_by_Permutation. Qed.

(** X18: the aggregated table of the uncovered terms has one row for each distinct
    search term of the uncovered rows; the rows are in decreasing order of
    clicks and, among equal clicks, of impressions. *)
Theorem uncovered_summary_rows (filtered_df : list row) :
  let agg := uncovered_summary (uncovered_df filtered_df) in
  List.NoDup (map TermAgg.search_term agg) /\
  (forall k, In k (map TermAgg.search_term agg) <->
             k <> VNull /\ exists r, In r (uncovered_df filtered_df) /\ search_term r = k) /\
  StronglySorted
    (fun a b => (TermAgg.total_clicks b < TermAgg.total_clicks a)%Q \/
                ((TermAgg.total_clicks a == TermAgg.total_clicks b)%Q /\
                 (TermAgg.total_impressions b <= TermAgg.total_impressions a)%Q))
    agg.
Proof.
  intros agg. subst agg. set (unc := uncovered_df filtered_df).
  assert (Hp : Permutation (map TermAgg.search_term (uncovered_summary unc))
                 (group_keys search_term unc)).
  { rewrite (Permutation_map _ (uncovered_summary_Permutation _)), map_map. simpl.
    by rewrite map_id. }
  split; [|split].
  - eapply Permutation_NoDup; [symmetry; exact Hp|]. apply group_keys_NoDup.
  - intros k. rewrite (Permutation_in' (eq_refl k) Hp) by done. apply group_keys_In.
  - eapply StronglySorted_impl; [|apply (sort_by_sorted more_traffic)].
    + intros a b H. by apply more_traffic_spec.
    + intros x y H.
      apply more_traffic_spec.
      destruct (more_traffic x y) eqn:E; [done|]. clear H.
      destruct (Qcompare_spec (TermAgg.total_clicks x) (TermAgg.total_clicks y)) as [Ec|Ec|Ec].
      * right. split; [by symmetry|].
        destruct (Qlt_le_dec (TermAgg.total_impressions y) (TermAgg.total_impressions x))
          as [Hlt|Hle]; [|done].
        assert (more_traffic x y = true); [|congruence].
        apply more_traffic_spec. right. split; [done|]. by apply Qlt_le_weak.
      * by left.
      * assert (more_traffic x y = true); [|congruence].
        apply more_traffic_spec. by left.
    + intros x y z. rewrite !more_traffic_spec.
      intros [H1|[H1 H1']] [H2|[H2 H2']].
      * left. by eapply Qlt_trans.
      * left. by rewrite <- H2.
      * left. by rewrite H1.
      * right. split; [by rewrite H1|]. by eapply Qle_trans.
Qed.

(** X19: the detailed list holds every uncovered row once, the most clicked
    first. *)
Theorem full_detailed_list_rows (filtered_df : list row) :
  Permutation (full_detailed_list (uncovered_df filtered_df))
    (map detail_columns (uncovered_df filtered_df)) /\
  StronglySorted (fun a b => (Detail.clicks b <= Detail.clicks a)%Q)
    (full_detailed_list (uncovered_df filtered_df)).
Proof.
  split; [apply sort_by_Permutation|apply (sort_by_desc_sorted Detail.clicks)].
Qed.

(** ** The search terms for the suggestion service *)

Lemma StronglySorted_app_inv {A} (R : A -> A -> Prop) (l1 l2 : list A) :
  StronglySorted R (l1 ++ l2) -> forall a b, In a l1 -> In b l2 -> R a b.
Proof.
  induction l1 as [|x l1 IH]; simpl; [done|].
  intros H a b [<-|Ha] Hb.
  - apply StronglySorted_inv in H as [_ H].
    rewrite List.Forall_forall in H. apply H, in_or_app. by right.
  - apply StronglySorted_inv in H as [H _]. by apply IH.
Qed.

(** X21: the service is given at most 30 search terms, each with the clicks and
    impressions of its rows; a search term that is left out has no more
    clicks than any that is kept, and none is left out when there are at most
    30. *)
Theorem top_context_rows (filtered_df : list row) :
  length (top_context filtered_df) <= 30 /\
  (forall a, In a (top_context filtered_df) ->
     TopTerm.search_term a <> VNull /\
     a = agg_top_term filtered_df (TopTerm.search_term a)) /\
  (forall a k, In a (top_context filtered_df) ->
     k <> VNull -> (exists r, In r filtered_df /\ search_term r = k) ->
     In (agg_top_term filtered_df k) (top_context filtered_df) \/
     (TopTerm.clicks (agg_top_term filtered_df k) <= TopTerm.clicks a)%Q) /\
  (length (group_keys search_term filtered_df) <= 30 ->
   Permutation (top_context filtered_df)
     (map (agg_top_term filtered_df) (group_keys search_term filtered_df))).
Proof.
  unfold top_context.
  assert (Hp : Permutation (terms_by_clicks filtered_df)
                 (map (agg_top_term filtered_df) (group_keys search_term filtered_df)))
    by apply sort_by_Permutation.
  assert (Hs : StronglySorted (fun a b => (TopTerm.clicks b <= TopTerm.clicks a)%Q)
                 (terms_by_clicks filtered_df))
    by apply (sort_by_desc_sorted TopTerm.clicks).
  split; [|split; [|split]].
  - apply firstn_le_length.
  - intros a Ha.
    assert (Ha' : In a (terms_by_clicks filtered_df)).
    { rewrite <- (firstn_skipn 30). apply in_or_app. by left. }
    apply (Permutation_in _ Hp), in_map_iff in Ha' as (k & <- & Hk). simpl.
    apply group_keys_In in Hk as [Hk _]. done.
  - intros a k Ha Hk Hr.
    assert (Hb : In (agg_top_term filtered_df k) (terms_by_clicks filtered_df)).
    { apply (Permutation_in _ (Permutation_sym Hp)), in_map, group_keys_In. done. }
    rewrite <- (firstn_skipn 30 (terms_by_clicks filtered_df)) in Hb, Hs.
    apply in_app_or in Hb as [Hb|Hb]; [by left|right].
    by apply (StronglySorted_app_inv _ _ _ Hs a).
  - intros Hlen. rewrite firstn_all2; [done|].
    by rewrite (Permutation_length Hp), length_map.
Qed.

(** ** More on [clean_text] *)

Lemma lower_fixed_not_upper c : lower_char c = c -> ~ (65 <= code c <= 90).
Proof.
  destruct c as [[] [] [] [] [] [] [] []]; vm_compute; intros H; try discriminate H; lia.
Qed.

Lemma collapse_fix_spaces x :
  collapse_spaces x = x ->
  (forall c, In c x -> is_space c = true -> c = " "%char) /\
  (forall l1 c1 c2 l2, x = l1 ++ c1 :: c2 :: l2 -> is_space c1 = true -> is_space c2 = false).
Proof.
  induction x as [|c x IH]; simpl.
  - intros _. split; [done|]. intros [|? ?] ? ? ? [=].
  - destruct (is_space c) eqn:Ec.
    + destruct (starts_with is_space x) eqn:Ex.
      * intros H. pose proof (collapse_spaces_length x) as Hl.
        rewrite H in Hl. simpl in Hl. lia.
      * intros [= <- H]. destruct (IH H) as [IH1 IH2]. split.
        -- intros d [<-|Hd] Hs; [done|]. by apply IH1.
        -- intros [|d l1] c1 c2 l2 E Hs.
           ++ injection E as <- ->. simpl in Ex. exact Ex.
           ++ injection E as <- E. by apply (IH2 l1 c1 c2 l2).
    + intros [= H]. destruct (IH H) as [IH1 IH2]. split.
      * intros d [<-|Hd] Hs; [congruence|]. by apply IH1.
      * intros [|d l1] c1 c2 l2 E Hs.
        -- injection E as <- _. congruence.
        -- injection E as <- E. by apply (IH2 l1 c1 c2 l2).
Qed.

Lemma clean_text_cleaned (x : value) :
  cleaned (String.list_ascii_of_string (clean_text x)).
Proof.
  unfold clean_text. destruct (isna x).
  - by split.
  - unfold clean_str. rewrite chars_of_on_chars. apply clean_chars_cleaned.
Qed.

(** X22: whatever the cell, the cleaned text has no plus sign and no capital
    letter (of the 26), no whitespace at its ends, and inside only single
    spaces: no tab or line break, and no two spaces in a row. *)
Theorem clean_text_normal_form (x : value) :
  let t := String.list_ascii_of_string (clean_text x) in
  (forall c, In c t ->
     is_plus c = false /\ ~ (65 <= code c <= 90) /\ (is_space c = true -> c = " "%char)) /\
  starts_with is_space t = false /\
  ends_with is_space t = false /\
  (forall l1 c1 c2 l2, t = l1 ++ c1 :: c2 :: l2 -> is_space c1 = true -> is_space c2 = false).
Proof.
  intros t. destruct (clean_text_cleaned x) as [Hl Hp Hs He Hc]. fold t in Hl, Hp, Hs, He, Hc.
  destruct (collapse_fix_spaces t Hc) as [H1 H2].
  split; [|by repeat split].
  intros c Hc'. split; [by apply Hp|]. split; [by apply lower_fixed_not_upper, Hl|].
  by apply H1.
Qed.

(** X23: the strings of ASCII characters that [clean_text] returns unchanged
    are those in normal form that neither start nor end with a bracket or a
    double quote. *)
Theorem clean_text_fixed_point (s : string) :
  is_ascii s = true ->
  (clean_text (VStr s) = s <->
   cleaned (String.list_ascii_of_string s) /\ bracket_at_end s = false).
Proof.
  intros _. split.
  - intros E. split.
    + rewrite <- E. apply clean_text_cleaned.
    + unfold bracket_at_end. rewrite <- E at 1 2.
      unfold clean_text, clean_str. simpl. rewrite chars_of_on_chars.
      apply clean_chars_twice.
      apply (f_equal String.list_ascii_of_string) in E.
      unfold clean_text, clean_str in E. simpl in E. rewrite chars_of_on_chars in E.
      by rewrite !E.
  - intros [Hc Hb]. unfold clean_text, clean_str, on_chars. simpl.
    unfold bracket_at_end in Hb. apply orb_false_iff in Hb as [Hs He].
    rewrite (cleaned_fix _ Hc Hs He).
    apply String.string_of_list_ascii_of_string.
Qed.

Lemma clean_text_fixed_point_witness :
  cleaned (String.list_ascii_of_string "roof repair near me") /\
  bracket_at_end "roof repair near me" = false.
Proof.
  apply (proj1 (clean_text_fixed_point "roof repair near me" eq_refl)).
  vm_compute. reflexivity.
Defined.

(** *** Case and amount of whitespace do not matter *)

Lemma lstrip_space_collapse y :
  lstrip_with is_space (collapse_spaces y) = collapse_spaces (lstrip_with is_space y).
Proof.
  induction y as [|c y IH]; simpl; [done|].
  destruct (is_space c) eqn:Ec.
  - destruct (starts_with is_space y); simpl; [done|].
    change (is_space " "%char) with true. simpl. exact IH.
  - simpl. by rewrite Ec.
Qed.

Lemma rstrip_with_head p x d r : rstrip_with p x = d :: r -> exists tl, x = d :: tl.
Proof.
  destruct x as [|c x]; simpl; [done|].
  destruct (rstrip_with p x); [destruct (p c)|]; intros [= <- <-]; by eexists.
Qed.

Lemma rstrip_with_all p x : forallb p x = true -> rstrip_with p x = [].
Proof.
  induction x as [|c x IH]; simpl; [done|].
  intros [Hc Hx]%andb_true_iff. by rewrite (IH Hx), Hc.
Qed.

Lemma rstrip_with_cons p c x :
  rstrip_with p x <> [] -> rstrip_with p (c :: x) = c :: rstrip_with p x.
Proof. simpl. by destruct (rstrip_with p x). Qed.

Section StripCollapse.
Variable p : ascii -> bool.
Hypothesis p_space : forall c, is_space c = true -> p c = p " "%char.

Lemma collapse_spaces_all x : forallb p x = true -> forallb p (collapse_spaces x) = true.
Proof.
  induction x as [|c x IH]; simpl; [done|].
  intros [Hc Hx]%andb_true_iff.
  destruct (is_space c) eqn:Ec.
  - destruct (starts_with is_space x); [by apply IH|].
    simpl. rewrite <- (p_space c Ec), Hc. by apply IH.
  - simpl. rewrite Hc. by apply IH.
Qed.

Lemma rstrip_collapse w :
  rstrip_with p (collapse_spaces w) = collapse_spaces (rstrip_with p w).
Proof.
  induction w as [|c w IH]; [done|].
  simpl rstrip_with at 2.
  destruct (rstrip_with p w) as [|d r] eqn:Er.
  - pose proof (rstrip_with_nil p w Er) as Hall.
    destruct (p c) eqn:Ec.
    + apply rstrip_with_all, collapse_spaces_all. simpl. by rewrite Ec.
    + simpl. destruct (is_space c) eqn:Es.
      * destruct (starts_with is_space w) eqn:Ew.
        -- exfalso. destruct w as [|e w]; [done|]. simpl in Ew, Hall.
           apply andb_true_iff in Hall as [He _].
           rewrite (p_space e Ew), <- (p_space c Es) in He. congruence.
        -- simpl. rewrite IH. simpl. by rewrite <- (p_space c Es), Ec.
      * simpl. rewrite IH. simpl. by rewrite Ec.
  - destruct (rstrip_with_head p w d r Er) as [tl ->].
    assert (Hne : exists e l, collapse_spaces (d :: r) = e :: l).
    { destruct (collapse_spaces (d :: r)) as [|e l] eqn:E; [|by eexists _, _].
      by apply collapse_spaces_nil in E. }
    destruct Hne as (e & l & Hel).
    change (collapse_spaces (c :: d :: tl)) with
      (if is_space c then
         if is_space d then collapse_spaces (d :: tl) else " "%char :: collapse_spaces (d :: tl)
       else c :: collapse_spaces (d :: tl)).
    change (collapse_spaces (c :: d :: r)) with
      (if is_space c then
         if is_space d then collapse_spaces (d :: r) else " "%char :: collapse_spaces (d :: r)
       else c :: collapse_spaces (d :: r)).
    assert (Hr : rstrip_with p (collapse_spaces (d :: tl)) <> []) by (by rewrite IH, Hel).
    destruct (is_space c); [destruct (is_space d)|].
    + exact IH.
    + by rewrite (rstrip_with_cons _ _ _ Hr), IH.
    + by rewrite (rstrip_with_cons _ _ _ Hr), IH.
Qed.
End StripCollapse.

Lemma py_strip_collapse y : py_strip (collapse_spaces y) = collapse_spaces (py_strip y).
Proof.
  unfold py_strip. rewrite lstrip_space_collapse. apply rstrip_collapse.
  intros c Hc. by rewrite Hc.
Qed.

Lemma lstrip_bracket_collapse z :
  lstrip_with is_bracket (collapse_spaces z) = collapse_spaces (lstrip_with is_bracket z).
Proof.
  induction z as [|c z IH]; [done|].
  destruct (is_bracket c) eqn:Eb.
  - assert (Es : is_space c = false).
    { destruct (is_space c) eqn:Es; [|done]. apply space_not_bracket in Es. congruence. }
    simpl. rewrite Es, Eb. simpl. by rewrite Eb.
  - simpl lstrip_with at 2. rewrite Eb.
    apply lstrip_with_id.
    destruct (is_space c) eqn:Es.
    + apply (starts_with_weaken is_bracket (fun c => negb (is_space c))).
      * intros d Hd. destruct (is_space d) eqn:E; [|done].
        apply space_not_bracket in E. congruence.
      * assert (H : starts_with is_space (collapse_spaces (c :: z)) = true).
        { rewrite collapse_spaces_starts. simpl. exact Es. }
        destruct (collapse_spaces (c :: z)); simpl in *; [done|]. by rewrite H.
    + simpl. rewrite Es. simpl. exact Eb.
Qed.

Lemma sub_bracket_ends_collapse z :
  ends_with is_space z = false ->
  sub_bracket_ends (collapse_spaces z) = collapse_spaces (sub_bracket_ends z).
Proof.
  intros Hz.
  rewrite (sub_bracket_ends_stripped z Hz).
  rewrite sub_bracket_ends_stripped by (by rewrite collapse_spaces_ends).
  rewrite lstrip_bracket_collapse. apply rstrip_collapse.
  intros c Hc. by rewrite (space_not_bracket c Hc).
Qed.

Lemma remove_plus_collapse_starts w :
  starts_with is_space (remove_plus (collapse_spaces w))
  = starts_with is_space (remove_plus w).
Proof.
  induction w as [|c w IH]; [done|].
  destruct (is_space c) eqn:Es.
  - assert (Hp : is_plus c = false) by (revert Es; by_cases_on_char c).
    transitivity true; [|simpl; by rewrite Hp; simpl].
    simpl. rewrite Es. destruct (starts_with is_space w) eqn:Ew; [|done].
    rewrite IH. destruct w as [|d w]; [done|]. simpl in Ew.
    assert (Hd : is_plus d = false) by (revert Ew; by_cases_on_char d).
    simpl. rewrite Hd. simpl. exact Ew.
  - simpl. rewrite Es. simpl. destruct (is_plus c); simpl; [exact IH|done].
Qed.

Lemma collapse_remove_plus_collapse w :
  collapse_spaces (remove_plus (collapse_spaces w)) = collapse_spaces (remove_plus w).
Proof.
  induction w as [|c w IH]; [done|].
  destruct (is_space c) eqn:Es.
  - assert (Hp : is_plus c = false) by (revert Es; by_cases_on_char c).
    simpl. rewrite Es, Hp. simpl. rewrite Es.
    destruct (starts_with is_space w) eqn:Ew.
    + rewrite IH. destruct w as [|d w]; [done|]. simpl in Ew.
      assert (Hd : is_plus d = false) by (revert Ew; by_cases_on_char d).
      simpl. rewrite Hd. simpl. by rewrite Ew.
    + simpl. change (is_space " "%char) with true. cbv iota.
      by rewrite remove_plus_collapse_starts, IH.
  - simpl. rewrite Es. simpl. destruct (is_plus c); simpl; [exact IH|].
    by rewrite Es, IH.
Qed.

Lemma clean_chars_collapse x :
  clean_chars x
  = collapse_spaces (py_strip (remove_plus (sub_bracket_ends
      (py_strip (collapse_spaces (py_lower x)))))).
Proof.
  unfold clean_chars.
  rewrite (py_strip_collapse (py_lower x)).
  rewrite (sub_bracket_ends_collapse _ (py_strip_ends _)).
  set (w := sub_bracket_ends (py_strip (py_lower x))).
  rewrite <- !py_strip_collapse.
  by rewrite collapse_remove_plus_collapse.
Qed.

(** X24: two strings that are equal up to the case of the letters, the whitespace
    around them and the length and kind of the whitespace runs inside them
    have the same cleaned text. *)
Theorem clean_text_case_and_spacing (s t : string) :
  py_strip (collapse_spaces (py_lower (String.list_ascii_of_string s)))
  = py_strip (collapse_spaces (py_lower (String.list_ascii_of_string t))) ->
  clean_text (VStr s) = clean_text (VStr t).
Proof.
  intros H. unfold clean_text, clean_str, on_chars. simpl.
  by rewrite !clean_chars_collapse, H.
Qed.

Lemma clean_text_case_and_spacing_witness :
  clean_text (VStr "  Roof 	 REPAIR near  me ") = clean_text (VStr "roof repair near me").
Proof.
  apply clean_text_case_and_spacing. vm_compute. reflexivity.
Defined.

(** ** From the files to the scope, and from the cleaner to the gaps *)

(** X4: every row in scope, whatever the selection, has a search term that is
    neither missing nor empty. *)
Theorem scope_search_terms
    (uploaded_files : list upload) (errors : list string) (merged : list merged_row)
    (account_sel : string) (campaign_sel : value) (r : row) :
  load uploaded_files = (errors, inr merged) ->
  In r (sidebar account_sel campaign_sel (normalize merged)) ->
  search_term r <> VNull /\ search_term r <> VStr "".
Proof.
  intros H Hr. unfold sidebar in Hr.
  apply select_campaign_In in Hr as [Hr _]. apply select_account_In in Hr as [Hr _].
  rewrite (load_inr _ _ _ H) in Hr.
  apply normalize_In in Hr as (Hn & m & Hm & ->). split; [done|].
  simpl. by apply (loaded_search_term uploaded_files).
Qed.

Lemma scope_search_terms_witness :
  let c := {| csv_search_term := TText "roof repair"; csv_keyword := TText "roof repair";
              csv_campaign := TText "Roofing"; csv_ad_group := TText "Repair";
              csv_match_type := TText "Exact match";
              csv_impr := Some 10%Q; csv_interactions := Some 2%Q;
              csv_cost := Some 3%Q |} in
  let f := {| name := "a.csv"; read_csv := inr [c] |} in
  let r := rename_and_clean_numbers (tag_account "a.csv" c) in
  search_term r <> VNull /\ search_term r <> VStr "".
Proof.
  intros c f r.
  apply (scope_search_terms [f] [] (file_rows f) "a.csv" (VStr "Roofing") r).
  - reflexivity.
  - left. reflexivity.
Defined.

(** X25: a search term that equals the keyword of a row in scope up to case and
    spacing is not listed as uncovered, unless it cleans to the empty
    string. *)
Theorem covered_up_to_case_and_spacing
    (filtered_df : list row) (r r' : row) (s k : string) :
  In r filtered_df -> In r' filtered_df ->
  search_term r = VStr s -> keyword r' = VStr k ->
  py_strip (collapse_spaces (py_lower (String.list_ascii_of_string s)))
  = py_strip (collapse_spaces (py_lower (String.list_ascii_of_string k))) ->
  clean_text (VStr s) <> "" ->
  ~ In r (uncovered_df filtered_df).
Proof.
  intros Hr Hr' Hs Hk Heq Hne Hu.
  apply uncovered_row_not_covered in Hu. apply Hu, elem_of_all_keywords.
  unfold search_term_clean. rewrite Hs. split; [done|].
  exists r'. split; [done|]. unfold keyword_clean. rewrite Hk.
  unfold clean_text, clean_str, on_chars. simpl.
  by rewrite !clean_chars_collapse, Heq.
Qed.

Lemma covered_up_to_case_and_spacing_witness :
  let r := {| search_term := VStr "Roof  Repair"; keyword := VNull;
              campaign := VStr "Roofing"; ad_group := VStr "Repair";
              match_type := VStr "Broad match";
              impressions := 10; clicks := 2; cost := 3; account := "report.csv" |} in
  let r' := {| search_term := VStr "fix my roof"; keyword := VStr "roof repair";
               campaign := VStr "Roofing"; ad_group := VStr "Repair";
               match_type := VStr "Broad match";
               impressions := 5; clicks := 1; cost := 1; account := "report.csv" |} in
  ~ In r (uncovered_df [r; r']).
Proof.
  intros r r'.
  apply (covered_up_to_case_and_spacing [r; r'] r r' "Roof  Repair" "roof repair").
  - left. reflexivity.
  - right. left. reflexivity.
  - reflexivity.
  - reflexivity.
  - vm_compute. reflexivity.
  - vm_compute. discriminate.
Defined.
